(** * zongorepo: the update-payload extraction of [RepoBase]

    A shallow embedding of [src/base.repo.ts]: the private method
    [extractUpdatePayload] with its local closure [walk], and the response
    shaping of [findOne] and [insertOne].

    JavaScript values are primitives or references into a heap of objects, so
    that "the same object" is an equality of references.  An object is
    described by what [Object.entries] yields for it: its own enumerable
    string-keyed properties, in property order.  The objects of the heap
    are data objects: their properties are writable data properties and
    their prototype is the default one, which inherits from
    [Object.prototype] (accessors, frozen objects and the read-only [name]
    and [length] of functions are not described).

    The accumulator [extracted] is a fresh object literal that only [walk]
    writes to; it is threaded through the two loops as its own properties
    together with its prototype, which an assignment to [__proto__] replaces
    through the accessor of [Object.prototype]. *)

From Stdlib Require Import ZArith Ascii String.
From stdpp Require Import base option list strings pretty gmap.

(** ** JavaScript strings, values and objects *)

Module JS.

(** [s.startsWith(pre)] *)
Definition startsWith (pre s : string) : bool := String.prefix pre s.

(** [s.includes(sub)]: [sub] occurs somewhere in [s]. *)
Fixpoint includes (sub s : string) : bool :=
  String.prefix sub s ||
  match s with
  | EmptyString => false
  | String _ s' => includes sub s'
  end.

Definition addr := positive.

(** Numbers are carried around and never computed with; an integer payload
    is all the extraction can observe of them. *)
Inductive value :=
| VUndefined
| VNull
| VBoolean (b : bool)
| VNumber (n : Z)
| VString (s : string)
| VObject (a : addr)
| VFunction (a : addr).

Arguments VObject a%_positive.
Arguments VFunction a%_positive.

Inductive objclass :=
| CPlain
| CArray
| CDate (time : Z).

(** [props] is the result of [Object.entries] on the object. *)
Record object := Object { oclass : objclass; props : list (string * value) }.

Definition heap := addr → object.

(** The [typeof] operator. *)
Definition typeof (v : value) : string :=
  match v with
  | VUndefined => "undefined"
  | VNull => "object"
  | VBoolean _ => "boolean"
  | VNumber _ => "number"
  | VString _ => "string"
  | VObject _ => "object"
  | VFunction _ => "function"
  end.

Definition is_null (v : value) : bool :=
  match v with VNull => true | _ => false end.

(** [Object.entries(v)], used on references only (every call below is on
    the update object or behind the [typeof] guard). *)
Definition Object_entries (h : heap) (v : value) : list (string * value) :=
  match v with
  | VObject a | VFunction a => props (h a)
  | _ => []
  end.

(** Thrown values: an [Error] (of any subclass) with its message, or any
    other value. *)
Inductive exn :=
| Error (message : string)
| Thrown (v : value).

(** The outcome of running a function body: it returns or it throws. *)
Inductive completion (A : Type) :=
| Normal (a : A)
| Throw (e : exn).
Arguments Normal {A} a.
Arguments Throw {A} e.

(** Sequencing: a [Throw] skips the rest of the body. *)
#[global] Instance completion_bind : MBind completion := fun A B k c =>
  match c with
  | Normal a => k a
  | Throw e => Throw e
  end.

#[global] Instance value_eq_dec : EqDecision value.
Proof. solve_decision. Defined.

#[global] Instance exn_eq_dec : EqDecision exn.
Proof. solve_decision. Defined.

End JS.

Import JS.

(** A heap given by finitely many allocated objects; every other address
    holds an empty plain object. *)
Fixpoint heap_of (l : list (addr * object)) : heap :=
  fun a =>
    match l with
    | [] => Object CPlain []
    | (b, o) :: l' => if Pos.eqb a b then o else heap_of l' a
    end.

(** ** [extractUpdatePayload] *)

Module Extract.

Definition dquote : string := String "034"%char EmptyString.

(** [`Dot notation keys are not supported yet: "${key}"`] *)
Definition dot_notation_message (key : string) : string :=
  "Dot notation keys are not supported yet: " +:+ dquote +:+ key +:+ dquote.

(** The prototype of the accumulator: [Object.prototype], as for every
    object literal, until an assignment to [__proto__] replaces it by
    [null] or by an object of the heap. *)
Inductive prototype :=
| ObjectPrototype
| NullPrototype
| ObjectAt (a : addr).
Arguments ObjectAt a%_positive.

(** The accumulator, and the object [extractUpdatePayload] returns. *)
Record payload := Payload { own : gmap string value; proto : prototype }.

(** [{}] *)
Definition empty_object : payload := {| own := ∅; proto := ObjectPrototype |}.

(** Does an assignment to [__proto__] on [o] find the accessor of
    [Object.prototype]?  Not when [o] has an own property of that name, nor
    when its prototype is [null] or an object with an own property of that
    name. *)
Definition reaches_proto_setter (h : heap) (o : payload) : bool :=
  match own o !! "__proto__" with
  | Some _ => false
  | None =>
      match proto o with
      | ObjectPrototype => true
      | NullPrototype => false
      | ObjectAt a =>
          negb (existsb (fun kv => String.eqb kv.1 "__proto__") (props (h a)))
      end
  end.

(** [o[k] = v].  Through the accessor, an object or [null] becomes the
    prototype and any other value is ignored; in every other case the own
    property [k] is created or overwritten. *)
Definition set_property (h : heap) (k : string) (v : value) (o : payload) : payload :=
  if String.eqb k "__proto__" && reaches_proto_setter h o then
    match v with
    | VObject a | VFunction a => {| own := own o; proto := ObjectAt a |}
    | VNull => {| own := own o; proto := NullPrototype |}
    | _ => o
    end
  else {| own := <[k := v]> (own o); proto := proto o |}.

(** The inner loop of [walk], over the entries of one operator's value. *)
Fixpoint walk_operator (h : heap) (key : string) (fields : list (string * value))
    (extracted : payload) : completion payload :=
  match fields with
  | [] => Normal extracted
  | (fieldKey, fieldVal) :: rest =>
      if includes "." fieldKey then
        Throw (Error (dot_notation_message fieldKey))
      else
        walk_operator h key rest
          (set_property h fieldKey
             (if String.eqb key "$unset" then VUndefined else fieldVal) extracted)
  end.

(** The outer loop of [walk], over the entries of the update object. *)
Fixpoint walk_entries (h : heap) (entries : list (string * value))
    (extracted : payload) : completion payload :=
  match entries with
  | [] => Normal extracted
  | (key, val) :: rest =>
      if startsWith "$" key then
        if String.eqb (typeof val) "object" && negb (is_null val) then
          extracted' ← walk_operator h key (Object_entries h val) extracted;
          walk_entries h rest extracted'
        else
          walk_entries h rest extracted
      else
        if includes "." key then
          Throw (Error (dot_notation_message key))
        else
          walk_entries h rest (set_property h key val extracted)
  end.

Definition walk (h : heap) (obj : value) (extracted : payload) : completion payload :=
  walk_entries h (Object_entries h obj) extracted.

(** [update] is an object ([UpdateFilter<T>]); the result is the
    accumulator after [walk(update)], or the exception [walk] threw. *)
Definition extractUpdatePayload (h : heap) (update : addr) : completion payload :=
  walk h (VObject update) empty_object.
Arguments extractUpdatePayload h update%_positive.

End Extract.

Import Extract.

(** ** What the loops check and write, in iteration order

    These definitions describe a run of [walk] from the outside: the
    sequence of assignments it performs on [extracted] when no checked
    name contains a dot, and the names it checks. *)

Module Trace.

(** [typeof val === "object" && val !== null] *)
Definition is_nonnull_object (val : value) : bool :=
  String.eqb (typeof val) "object" && negb (is_null val).

(** The value an operator [key] stores for a nested [fieldVal]. *)
Definition contributed (key : string) (fieldVal : value) : value :=
  if String.eqb key "$unset" then VUndefined else fieldVal.

Definition operator_writes (key : string) (fields : list (string * value))
  : list (string * value) :=
  (fun kv => (kv.1, contributed key kv.2)) <$> fields.

(** The writes one entry of the update object causes. *)
Definition entry_writes (h : heap) (e : string * value) : list (string * value) :=
  if startsWith "$" e.1 then
    if is_nonnull_object e.2 then operator_writes e.1 (Object_entries h e.2)
    else []
  else [e].

Definition writes (h : heap) (entries : list (string * value))
  : list (string * value) :=
  entries ≫= entry_writes h.

(** The field names of one operator block (none when the operator's value
    is not a non-null object). *)
Definition nested_field_names (h : heap) (e : string * value) : list string :=
  if is_nonnull_object e.2 then (Object_entries h e.2).*1 else [].

(** Every name the dot check is applied to, in the order of the checks. *)
Definition checked_names (h : heap) (entries : list (string * value)) : list string :=
  (writes h entries).*1.

Definition first_dotted (h : heap) (entries : list (string * value)) : option string :=
  List.find (includes ".") (checked_names h entries).

Definition dot_free (h : heap) (entries : list (string * value)) : bool :=
  forallb (fun f => negb (includes "." f)) (checked_names h entries).

(** Does entry [e] write field [f]? *)
Definition writes_field (h : heap) (f : string) (e : string * value) : bool :=
  bool_decide (f ∈ (entry_writes h e).*1).

(** Performing a sequence of writes on the accumulator. *)
Definition assign (h : heap) (ws : list (string * value)) (acc : payload) : payload :=
  foldl (fun o kv => set_property h kv.1 kv.2 o) acc ws.

(** The same writes on a flat mapping, where every write is an insertion. *)
Definition assign_flat (ws : list (string * value)) (m : gmap string value)
  : gmap string value :=
  foldl (fun m kv => <[kv.1 := kv.2]> m) m ws.

(** No checked name is [__proto__]. *)
Definition proto_free (h : heap) (entries : list (string * value)) : bool :=
  forallb (fun f => negb (String.eqb f "__proto__")) (checked_names h entries).

(** The value of the last write to [f] in a sequence of writes. *)
Fixpoint last_write (f : string) (ws : list (string * value)) : option value :=
  match ws with
  | [] => None
  | (k, v) :: ws' =>
      match last_write f ws' with
      | Some w => Some w
      | None => if bool_decide (k = f) then Some v else None
      end
  end.

(** No operator block assigns a field that a direct key before it in the
    update object has already assigned. *)
Fixpoint direct_not_reassigned (h : heap) (entries : list (string * value)) : bool :=
  match entries with
  | [] => true
  | (key, val) :: rest =>
      (startsWith "$" key
       || negb (existsb (fun e => startsWith "$" e.1 && writes_field h key e) rest))
      && direct_not_reassigned h rest
  end.

(** Two heaps that hold the same update object and the same operator
    values directly under it. *)
Definition same_update (h h' : heap) (update : addr) : Prop :=
  props (h update) = props (h' update) ∧
  ∀ key a, (key, VObject a) ∈ props (h update) → props (h a) = props (h' a).

End Trace.

Import Trace.

(** ** The two-pass algorithm of the specification

    Written from the specification's algorithm (steps 1 to 5), to be
    compared with [extractUpdatePayload]; its accumulator is the flat
    mapping of the specification. *)

Module Reference.

(** Step 3b: the nested entries of one operator. *)
Fixpoint spec_nested (operator : string) (nested : list (string * value))
    (acc : gmap string value) : completion (gmap string value) :=
  match nested with
  | [] => Normal acc
  | (name, v) :: nested' =>
      if includes "." name then Throw (Error (dot_notation_message name))
      else if bool_decide (operator = "$unset")
           then spec_nested operator nested' (<[name := VUndefined]> acc)
           else spec_nested operator nested' (<[name := v]> acc)
  end.

(** Step 3: every entry whose key begins with the operator prefix. *)
Fixpoint spec_step3 (h : heap) (entries : list (string * value))
    (acc : gmap string value) : completion (gmap string value) :=
  match entries with
  | [] => Normal acc
  | (key, v) :: entries' =>
      if startsWith "$" key then
        match v with
        | VObject a => acc' ← spec_nested key (props (h a)) acc; spec_step3 h entries' acc'
        | _ => spec_step3 h entries' acc
        end
      else spec_step3 h entries' acc
  end.

(** Step 4: every entry whose key does not begin with the prefix. *)
Fixpoint spec_step4 (entries : list (string * value))
    (acc : gmap string value) : completion (gmap string value) :=
  match entries with
  | [] => Normal acc
  | (key, v) :: entries' =>
      if startsWith "$" key then spec_step4 entries' acc
      else if includes "." key then Throw (Error (dot_notation_message key))
      else spec_step4 entries' (<[key := v]> acc)
  end.

(** Steps 1, 2 and 5. *)
Definition extract_two_pass (h : heap) (update : addr)
  : completion (gmap string value) :=
  acc ← spec_step3 h (props (h update)) ∅;
  spec_step4 (props (h update)) acc.
Arguments extract_two_pass h update%_positive.

End Reference.

Import Reference.

(** ** [findOne] and [insertOne]

    The database driver and the validation library are collaborators of
    [RepoBase]; what they return is taken as given.  An awaited promise that
    rejects is a [Throw], and so is the rejection of the method itself.
    Calls to the logger and to the error file write to those sinks only and
    are left out; the arguments evaluated for them are not. *)

Module Repo.

Inductive ResponseStatus := ok | hasErrors.

(** [QueryResponseSingle<T, K>]; [None] is [null] for [data] and
    [undefined] for [error] and [queryFilter]. *)
Record QueryResponseSingle (Filter : Type) := {
  data : option (gmap string value);
  status : ResponseStatus;
  error : option string;
  queryFilter : option Filter
}.
Arguments data {Filter}.
Arguments status {Filter}.
Arguments error {Filter}.
Arguments queryFilter {Filter}.

(** [InsertResponse<T>] *)
Record InsertResponse := {
  ins_data : option (gmap string value);
  ins_error : option string;
  ins_status : ResponseStatus
}.

(** What [schema.safeParse] returns: [{ success: true, data }] or
    [{ success: false, error }]. *)
Inductive SafeParseReturn (Issues : Type) :=
| ParseSuccess (parsed : gmap string value)
| ParseFailure (issues : Issues).
Arguments ParseSuccess {Issues} parsed.
Arguments ParseFailure {Issues} issues.

(** The part of the validation library that [RepoBase] uses. *)
Class Zod (Schema Issues : Type) := {
  (** [schema instanceof z.ZodObject] *)
  isZodObject : Schema → bool;
  (** [field in schema.shape] *)
  shape_has : Schema → string → bool;
  (** [z.object(selectedShape)], for the selected fields of the shape *)
  z_object : Schema → list string → Schema;
  safeParse : Schema → gmap string value → SafeParseReturn Issues;
  (** [JSON.stringify(issues)]; it throws on what has no JSON form, such as
      a BigInt or a cycle *)
  stringify_issues : Issues → completion string
}.

(** The part of the driver's [Collection] that [findOne] and [insertOne]
    use; [driver_insertOne] yields [insertResult.acknowledged]. *)
Record Collection (Filter : Type) := {
  collectionName : string;
  driver_findOne : Filter → option (gmap string Z) →
                   completion (option (gmap string value));
  driver_insertOne : gmap string value → completion bool
}.
Arguments collectionName {Filter}.
Arguments driver_findOne {Filter}.
Arguments driver_insertOne {Filter}.

Record RepoBase (Filter Schema : Type) := {
  collection : Collection Filter;
  schema : Schema
}.
Arguments collection {Filter Schema}.
Arguments schema {Filter Schema}.

Section Methods.
Context {Filter Schema Issues : Type} `{!Zod Schema Issues}.
Variable this : RepoBase Filter Schema.

Definition generateDynamicSchema (select : option (list string))
  : completion Schema :=
  match select with
  | None | Some [] => Normal (schema this)
  | Some fields =>
      if negb (isZodObject (schema this)) then
        Throw (Error "Only object Zod schemas are supported for select")
      else
        Normal (z_object (schema this)
                  (List.filter (shape_has (schema this)) fields))
  end.

Definition generateProjection (select : option (list string))
  : option (gmap string Z) :=
  (fun fields => list_to_map ((fun field => (field, 1%Z)) <$> fields)) <$> select.

Definition generateProjectionAndSchema (select : option (list string))
  : completion (option (gmap string Z) * Schema) :=
  let projection := generateProjection select in
  dynamicSchema ← generateDynamicSchema select;
  Normal (projection, dynamicSchema).

(** [error ? filter : undefined] *)
Definition filter_if_error (error : option string) (filter : Filter)
  : option Filter :=
  match error with
  | Some (String _ _) => Some filter
  | _ => None
  end.

Definition findOne (filter : Filter) (select : option (list string))
  : completion (QueryResponseSingle Filter) :=
  ps ← generateProjectionAndSchema select;
  result ← driver_findOne (collection this) filter ps.1;
  let status := ok in
  let error := None in
  match result with
  | None =>
      Normal {| data := None; error := error; status := status;
                queryFilter := filter_if_error error filter |}
  | Some doc =>
      match safeParse ps.2 doc with
      | ParseSuccess parsed =>
          Normal {| data := Some parsed; error := error; status := status;
                    queryFilter := filter_if_error error filter |}
      | ParseFailure _ =>
          let errorMsg :=
            "1 " +:+ collectionName (collection this)
                 +:+ " document failed validation during findOne" in
          Normal {| data := None; error := Some errorMsg; status := hasErrors;
                    queryFilter := filter_if_error (Some errorMsg) filter |}
      end
  end.

(** [now] is the value of [new Date()], [oid] that of [new ObjectId()]. *)
Definition buildInsertPayload (now oid : value) (input : gmap string value)
  : gmap string value :=
  <["updated_at" := now]> (<["created_at" := now]> (<["_id" := oid]> input)).

Definition insertOne (now oid : value) (input : gmap string value)
  : completion InsertResponse :=
  let _input := buildInsertPayload now oid input in
  match safeParse (schema this) _input with
  | ParseFailure errorIssues =>
      let errorMsg := "Failed to insert document: schema validation failed" in
      issuesText ← stringify_issues errorIssues;
      Normal {| ins_data := None;
                ins_error := Some (errorMsg +:+ " " +:+ issuesText);
                ins_status := hasErrors |}
  | ParseSuccess parsedData =>
      match driver_insertOne (collection this) parsedData with
      | Throw _ =>
          Normal {| ins_data := None; ins_error := Some "MongoDB failed to insertOne";
                    ins_status := hasErrors |}
      | Normal acknowledged =>
          if negb acknowledged then
            Normal {| ins_data := None;
                      ins_error := Some "MongoDB failed to acknowledge insert";
                      ins_status := hasErrors |}
          else
            Normal {| ins_data := Some parsedData; ins_error := None;
                      ins_status := ok |}
      end
  end.

End Methods.

End Repo.

Import Repo.

(** ** The update expressions of the test suite *)

Module Tests.

Definition now : value := VObject 100.

(** [{ $set: { name: "John", status: "sent" } }] at address 1 *)
Definition h_set : heap := heap_of
  [ (1%positive, Object CPlain [("$set", VObject 2)]);
    (2%positive, Object CPlain [("name", VString "John"); ("status", VString "sent")]) ].

(** [{ $set: { status: "sent", count: 1 }, $unset: { archivedAt: "" },
       last_attempt_at: now }] at address 1 *)
Definition h_mixed : heap := heap_of
  [ (1%positive, Object CPlain
       [("$set", VObject 2); ("$unset", VObject 3); ("last_attempt_at", now)]);
    (2%positive, Object CPlain [("status", VString "sent"); ("count", VNumber 1)]);
    (3%positive, Object CPlain [("archivedAt", VString "")]);
    (100%positive, Object (CDate 1700000000000) []) ].

(** [{ $set: { name: "John" }, name: "Alice" }] at address 1, and the same
    two properties in the other order at address 3 *)
Definition h_dup : heap := heap_of
  [ (1%positive, Object CPlain [("$set", VObject 2); ("name", VString "Alice")]);
    (2%positive, Object CPlain [("name", VString "John")]);
    (3%positive, Object CPlain [("name", VString "Alice"); ("$set", VObject 2)]) ].

(** [{ $set: { "user.name": "Alice" } }] at address 1 and
    [{ "profile.contact.email": "a@b.com" }] at address 3 *)
Definition h_dot : heap := heap_of
  [ (1%positive, Object CPlain [("$set", VObject 2)]);
    (2%positive, Object CPlain [("user.name", VString "Alice")]);
    (3%positive, Object CPlain [("profile.contact.email", VString "a@b.com")]) ].

(** [{ $set: { status: "sent", count: 1 }, $inc: { count: 2 },
       $unset: { status: "" } }] at address 1 *)
Definition h_ops : heap := heap_of
  [ (1%positive, Object CPlain
       [("$set", VObject 2); ("$inc", VObject 3); ("$unset", VObject 4)]);
    (2%positive, Object CPlain [("status", VString "sent"); ("count", VNumber 1)]);
    (3%positive, Object CPlain [("count", VNumber 2)]);
    (4%positive, Object CPlain [("status", VString "")]) ].

(** [{ $set: { level1: { level2: { "deep.key": { value: "deep" } },
                         someVal: "hey" },
               last_attempt_at: now } }] at address 1 *)
Definition h_deep : heap := heap_of
  [ (1%positive, Object CPlain [("$set", VObject 2)]);
    (2%positive, Object CPlain [("level1", VObject 10); ("last_attempt_at", now)]);
    (10%positive, Object CPlain [("level2", VObject 11); ("someVal", VString "hey")]);
    (11%positive, Object CPlain [("deep.key", VObject 12)]);
    (12%positive, Object CPlain [("value", VString "deep")]);
    (100%positive, Object (CDate 1700000000000) []) ].

(** The same update object over a heap in which the object under
    [level1] has other contents. *)
Definition h_deep' : heap := heap_of
  [ (1%positive, Object CPlain [("$set", VObject 2)]);
    (2%positive, Object CPlain [("level1", VObject 10); ("last_attempt_at", now)]);
    (10%positive, Object CPlain [("x.y.z", VNull)]) ].

(** [{ $set: "oops", name: "Alice" }] at address 1 and [{ name: "Alice" }]
    at address 2 *)
Definition h_skip : heap := heap_of
  [ (1%positive, Object CPlain [("$set", VString "oops"); ("name", VString "Alice")]);
    (2%positive, Object CPlain [("name", VString "Alice")]) ].

(** [{ $rename: { count: "total" } }] at address 1 and
    [{ $setOnInsert: { count: "total" } }] at address 3 *)
Definition h_alike : heap := heap_of
  [ (1%positive, Object CPlain [("$rename", VObject 2)]);
    (2%positive, Object CPlain [("count", VString "total")]);
    (3%positive, Object CPlain [("$setOnInsert", VObject 2)]) ].

(** A schema library that accepts every document unchanged. *)
Definition zod_accept : Zod unit unit := {|
  isZodObject := fun _ => true;
  shape_has := fun _ _ => true;
  z_object := fun s _ => s;
  safeParse := fun _ doc => ParseSuccess doc;
  stringify_issues := fun _ => Normal "[]"
|}.

(** A schema with a transform on [updated_at], such as
    [z.date().transform((d) => d.getTime())]. *)
Definition zod_transform : Zod unit unit := {|
  isZodObject := fun _ => true;
  shape_has := fun _ _ => true;
  z_object := fun s _ => s;
  safeParse := fun _ doc => ParseSuccess (<["updated_at" := VNumber 1700000000000]> doc);
  stringify_issues := fun _ => Normal "[]"
|}.

(** An empty collection that acknowledges every insert. *)
Definition repo_empty : RepoBase string unit := {|
  collection := {| collectionName := "test";
                   driver_findOne := fun _ _ => Normal None;
                   driver_insertOne := fun _ => Normal true |};
  schema := tt
|}.

(** [{ $set: { status: null }, $inc: { count: 2 }, name: "Alice" }] at
    address 1 *)
Definition h_inc : heap := heap_of
  [ (1%positive, Object CPlain
       [("$set", VObject 2); ("$inc", VObject 3); ("name", VString "Alice")]);
    (2%positive, Object CPlain [("status", VNull)]);
    (3%positive, Object CPlain [("count", VNumber 2)]) ].

End Tests.

(** ** [find], [getAll], [aggregate] and [findOneAndUpdate]

    The cursor of the driver is built lazily: the driver is consulted when
    [toArray] is awaited.  As for [findOne], the calls to the logger are left
    out, but not the [JSON.stringify] of their arguments, which may throw. *)

Module Queries.

(** [QueryResponse<T, K>] *)
Record QueryResponse (Filter : Type) := {
  q_data : list (gmap string value);
  q_status : ResponseStatus;
  q_error : option string;
  q_queryFilter : option Filter
}.
Arguments q_data {Filter}.
Arguments q_status {Filter}.
Arguments q_error {Filter}.
Arguments q_queryFilter {Filter}.

(** [AggregateResponse<U>]; [a_error] is a string or [undefined], or
    whatever the [message] of a caught value is. *)
Record AggregateResponse (Pipeline : Type) := {
  a_data : list (gmap string value);
  a_status : ResponseStatus;
  a_error : value;
  a_pipeline : option Pipeline
}.
Arguments a_data {Pipeline}.
Arguments a_status {Pipeline}.
Arguments a_error {Pipeline}.
Arguments a_pipeline {Pipeline}.

(** The [schema] argument of [aggregate]: left out, [false], or a schema. *)
Inductive SchemaArg (Schema : Type) :=
| SchemaUndefined
| SchemaFalse
| SchemaGiven (s : Schema).
Arguments SchemaUndefined {Schema}.
Arguments SchemaFalse {Schema}.
Arguments SchemaGiven {Schema} s.

(** [schema.partial()], and [schema.safeParse] on an object whose prototype
    is not [Object.prototype] (the library reads inherited properties). *)
Class ZodPartial (Schema Issues : Type) := {
  z_partial : Schema → Schema;
  safeParse_inheriting : Schema → heap → payload → SafeParseReturn Issues
}.

(** What the runtime does with the values the methods hand to it:
    [JSON.stringify], which throws on what has no JSON form (a BigInt, a
    cycle), and the TypeError of reading a property of [null] or
    [undefined]. *)
Class Runtime (Issues : Type) := {
  (** [JSON.stringify(invalidResults, null, 2)] *)
  stringify_invalid : list (gmap string value * Issues) → completion string;
  (** [JSON.stringify(updateObj, null, 2)] *)
  stringify_object : heap → addr → completion string;
  (** [JSON.stringify(result, null, 2)] *)
  stringify_document : gmap string value → completion string;
  (** [JSON.stringify(issues, null, 2)] *)
  stringify_issues_indented : Issues → completion string;
  nullish_read : exn
}.

(** A property value in an object built for the driver: a value the caller
    supplied, or an object literal evaluated on the spot, given by its
    entries. *)
Inductive literal :=
| Ref (v : value)
| Lit (entries : list (string * value)).

(** The cursor methods of the driver's [Collection] behind [find] and
    [aggregate] (up to [toArray]), and its [findOneAndUpdate]. *)
Record Cursors (Filter Pipeline AggOptions UpdOptions : Type) := {
  driver_find : Filter → option Z → option (gmap string Z) →
                completion (list (gmap string value));
  driver_aggregate : Pipeline → option AggOptions →
                     completion (list (gmap string value));
  driver_findOneAndUpdate : Filter → list (string * literal) → option (gmap string Z) →
                            UpdOptions → completion (option (gmap string value))
}.
Arguments driver_find {Filter Pipeline AggOptions UpdOptions}.
Arguments driver_aggregate {Filter Pipeline AggOptions UpdOptions}.
Arguments driver_findOneAndUpdate {Filter Pipeline AggOptions UpdOptions}.

(** [result.success] *)
Definition is_success {Issues : Type} (r : SafeParseReturn Issues) : bool :=
  match r with ParseSuccess _ => true | ParseFailure _ => false end.

(** [result.data] of a successful result *)
Definition parsed_data {Issues : Type} (r : SafeParseReturn Issues)
  : option (gmap string value) :=
  match r with ParseSuccess d => Some d | ParseFailure _ => None end.

(** [parsedResults.filter((r) => r.success).map((r) => r.data)] *)
Definition validResults {Issues : Type} (parsedResults : list (SafeParseReturn Issues))
  : list (gmap string value) :=
  omap parsed_data (List.filter is_success parsedResults).

(** [parsedResults.filter((r) => !r.success)] *)
Definition invalidResults {Issues : Type} (parsedResults : list (SafeParseReturn Issues))
  : list (SafeParseReturn Issues) :=
  List.filter (fun r => negb (is_success r)) parsedResults.

(** [result.error.issues] of a failed result *)
Definition parse_issues {Issues : Type} (r : SafeParseReturn Issues) : option Issues :=
  match r with ParseSuccess _ => None | ParseFailure issues => Some issues end.

(** [invalid.map((result, index) => ({ originalData: results[index],
    errors: result.error.issues }))]: the index counts the failed results,
    so that the i-th of them is paired with the i-th document. *)
Definition invalid_report {Issues : Type} (results : list (gmap string value))
    (parsedResults : list (SafeParseReturn Issues))
  : list (gmap string value * Issues) :=
  zip results (omap parse_issues (invalidResults parsedResults)).

(** [error ? x : undefined] *)
Definition echo_if_error {A : Type} (error : option string) (x : A) : option A :=
  match error with
  | Some message => if String.eqb message "" then None else Some x
  | None => None
  end.

(** [obj[k]] on the own properties of an object. *)
Fixpoint get_prop (k : string) (es : list (string * value)) : value :=
  match es with
  | [] => VUndefined
  | (k', v) :: es' => if String.eqb k' k then v else get_prop k es'
  end.

(** A property [k: x] written after a spread in an object literal: it
    replaces the value of an existing key in place and is appended
    otherwise. *)
Fixpoint set_prop {A : Type} (k : string) (x : A) (es : list (string * A))
  : list (string * A) :=
  match es with
  | [] => [(k, x)]
  | (k', y) :: es' =>
      if String.eqb k' k then (k, x) :: es' else (k', y) :: set_prop k x es'
  end.

(** The properties [...(v ?? {})] copies: those of an object, the
    characters of a string, none for the other primitives. *)
Definition spread_entries (h : heap) (v : value) : list (string * value) :=
  match v with
  | VObject a | VFunction a => props (h a)
  | VString s =>
      imap (fun i c => (pretty i, VString (String c EmptyString)))
           (list_ascii_of_string s)
  | _ => []
  end.

Definition as_refs (es : list (string * value)) : list (string * literal) :=
  (fun kv => (kv.1, Ref kv.2)) <$> es.

(** [{ ...updateObj, $set: { ...(updateObj.$set ?? {}), updated_at: new Date() } }],
    [now] being the value of [new Date()]. *)
Definition update_sent (h : heap) (update : addr) (now : value)
  : list (string * literal) :=
  let updateObj := props (h update) in
  set_prop "$set"
    (Lit (set_prop "updated_at" now (spread_entries h (get_prop "$set" updateObj))))
    (as_refs updateObj).

Section Methods.
Context {Filter Pipeline AggOptions UpdOptions Schema Issues : Type}.
Context `{!Zod Schema Issues} `{!ZodPartial Schema Issues} `{!Runtime Issues}.
Variable this : RepoBase Filter Schema.
Variable driver : Cursors Filter Pipeline AggOptions UpdOptions.
(** The filter [{}] *)
Variable empty_filter : Filter.

Definition find (filter : Filter) (max : option Z) (select : option (list string))
  : completion (QueryResponse Filter) :=
  ps ← generateProjectionAndSchema this select;
  results ← driver_find driver filter max ps.1;
  let parsedResults := safeParse ps.2 <$> results in
  let valid := validResults parsedResults in
  let invalid := invalidResults parsedResults in
  if negb (length valid =? length results)%nat then
    let errorMsg :=
      pretty (length invalid) +:+ " " +:+ collectionName (collection this)
        +:+ " document(s) failed validation during find" in
    logged ← stringify_invalid (invalid_report results parsedResults);
    Normal {| q_data := valid; q_error := Some errorMsg; q_status := hasErrors;
              q_queryFilter := echo_if_error (Some errorMsg) filter |}
  else
    Normal {| q_data := valid; q_error := None; q_status := ok;
              q_queryFilter := echo_if_error None filter |}.

Definition getAll (max : option Z) : completion (QueryResponse Filter) :=
  find empty_filter max None.

(** The body of the [try] block of [aggregate]. *)
Definition aggregate_try (pipeline : Pipeline) (options : option AggOptions)
    (schema_arg : SchemaArg Schema) : completion (AggregateResponse Pipeline) :=
  results ← driver_aggregate driver pipeline options;
  let effectiveSchema :=
    match schema_arg with
    | SchemaFalse => None
    | SchemaGiven s => Some s
    | SchemaUndefined => Some (schema this)
    end in
  match effectiveSchema with
  | Some s =>
      let parsedResults := safeParse s <$> results in
      let valid := validResults parsedResults in
      let invalid := invalidResults parsedResults in
      if (0 <? length invalid)%nat then
        let errorMsg :=
          pretty (length invalid) +:+ " " +:+ collectionName (collection this)
            +:+ " document(s) failed validation during aggregate" in
        logged ← stringify_invalid (invalid_report results parsedResults);
        Normal {| a_data := valid; a_error := VString errorMsg; a_status := hasErrors;
                  a_pipeline := echo_if_error (Some errorMsg) pipeline |}
      else
        Normal {| a_data := valid; a_error := VUndefined; a_status := ok;
                  a_pipeline := echo_if_error None pipeline |}
  | None =>
      Normal {| a_data := results; a_status := ok; a_error := VUndefined;
                a_pipeline := None |}
  end.

(** [err.message] for the value [e] caught. *)
Definition error_message (h : heap) (e : exn) : completion value :=
  match e with
  | Error message => Normal (VString message)
  | Thrown (VObject a) | Thrown (VFunction a) =>
      Normal (get_prop "message" (props (h a)))
  | Thrown VNull | Thrown VUndefined => Throw nullish_read
  | Thrown _ => Normal VUndefined
  end.

(** The [catch] clause of [aggregate]. *)
Definition aggregate_catch (h : heap) (pipeline : Pipeline) (e : exn)
  : completion (AggregateResponse Pipeline) :=
  message ← error_message h e;
  Normal {| a_data := []; a_status := hasErrors; a_error := message;
            a_pipeline := Some pipeline |}.

Definition aggregate (h : heap) (pipeline : Pipeline) (options : option AggOptions)
    (schema_arg : SchemaArg Schema) : completion (AggregateResponse Pipeline) :=
  match aggregate_try pipeline options schema_arg with
  | Normal response => Normal response
  | Throw e => aggregate_catch h pipeline e
  end.

(** The schema the extracted payload is validated against. *)
Definition partialSchema (dynamicSchema : Schema) : Schema :=
  if isZodObject dynamicSchema then z_partial dynamicSchema
  else if isZodObject (schema this) then z_partial (schema this)
  else schema this.

(** [schema.safeParse(extractedPayload)] *)
Definition parse_payload (s : Schema) (h : heap) (p : payload) : SafeParseReturn Issues :=
  match proto p with
  | ObjectPrototype => safeParse s (own p)
  | _ => safeParse_inheriting s h p
  end.

Definition failed (errorMsg : string) (filter : Filter) : QueryResponse Filter :=
  {| q_data := []; q_error := Some errorMsg; q_status := hasErrors;
     q_queryFilter := echo_if_error (Some errorMsg) filter |}.

Definition findOneAndUpdate (h : heap) (now : value) (filter : Filter) (update : addr)
    (select : option (list string)) (options : UpdOptions)
  : completion (QueryResponse Filter) :=
  let name := collectionName (collection this) in
  ps ← generateProjectionAndSchema this select;
  extractedPayload ← extractUpdatePayload h update;
  match parse_payload (partialSchema ps.2) h extractedPayload with
  | ParseFailure issues =>
      original ← stringify_object h update;
      errors ← stringify_issues_indented issues;
      Normal (failed ("1 " +:+ name
                        +:+ " document failed validation before findOneAndUpdate") filter)
  | ParseSuccess _ =>
      match driver_findOneAndUpdate driver filter (update_sent h update now) ps.1 options with
      | Throw _ =>
          Normal (failed ("1 " +:+ name
                            +:+ " document failed findOneAndUpdate in mongodb") filter)
      | Normal None =>
          Normal (failed ("1 " +:+ name
                            +:+ " document returned null findOneAndUpdate in mongodb") filter)
      | Normal (Some result) =>
          match safeParse ps.2 result with
          | ParseFailure issues =>
              original ← stringify_document result;
              errors ← stringify_issues_indented issues;
              Normal (failed ("1 " +:+ name
                                +:+ " document failed validation after findOneAndUpdate")
                        filter)
          | ParseSuccess data =>
              Normal {| q_data := [data]; q_error := None; q_status := ok;
                        q_queryFilter := echo_if_error None filter |}
          end
      end
  end.

End Methods.

End Queries.

Import Queries.

(** ** Repositories for examples *)

Module Fixtures.

(** A schema that is not an object schema, such as [z.string()]. *)
Definition zod_scalar : Zod unit unit := {|
  isZodObject := fun _ => false;
  shape_has := fun _ _ => false;
  z_object := fun s _ => s;
  safeParse := fun _ _ => ParseFailure tt;
  stringify_issues := fun _ => Normal "[]"
|}.

(** An object schema that accepts the documents with a string [name]. *)
Definition zod_named : Zod unit unit := {|
  isZodObject := fun _ => true;
  shape_has := fun _ field => String.eqb field "name";
  z_object := fun s _ => s;
  safeParse := fun _ doc =>
    match doc !! "name" with
    | Some (VString _) => ParseSuccess doc
    | _ => ParseFailure tt
    end;
  stringify_issues := fun _ => Normal "[]"
|}.

(** A schema whose issues hold a BigInt: they have no JSON form. *)
Definition serialize_error : exn := Error "Do not know how to serialize a BigInt".

Definition zod_bigint : Zod unit unit := {|
  isZodObject := fun _ => true;
  shape_has := fun _ field => String.eqb field "name";
  z_object := fun s _ => s;
  safeParse := fun _ doc =>
    match doc !! "name" with
    | Some (VString _) => ParseSuccess doc
    | _ => ParseFailure tt
    end;
  stringify_issues := fun _ => Throw serialize_error
|}.

Definition partial_same : ZodPartial unit unit := {|
  z_partial := fun s => s;
  safeParse_inheriting := fun _ _ _ => ParseFailure tt
|}.

(** A runtime in which everything logged has a JSON form. *)
Definition runtime_plain : Runtime unit := {|
  stringify_invalid := fun _ => Normal "[]";
  stringify_object := fun _ _ => Normal "{}";
  stringify_document := fun _ => Normal "{}";
  stringify_issues_indented := fun _ => Normal "[]";
  nullish_read := Error "null is not an object"
|}.

(** A runtime in which the issues hold a BigInt. *)
Definition runtime_bigint : Runtime unit := {|
  stringify_invalid := fun _ => Throw serialize_error;
  stringify_object := fun _ _ => Normal "{}";
  stringify_document := fun _ => Normal "{}";
  stringify_issues_indented := fun _ => Throw serialize_error;
  nullish_read := Error "null is not an object"
|}.

Definition john : gmap string value := {[ "name" := VString "John" ]}.
Definition nameless : gmap string value := {[ "count" := VNumber 3 ]}.

(** A driver whose cursors yield one valid and one invalid document, and
    whose [findOneAndUpdate] rejects. *)
Definition cursors_two : Cursors string (list string) unit unit := {|
  driver_find := fun _ _ _ => Normal [john; nameless];
  driver_aggregate := fun _ _ => Normal [nameless; john];
  driver_findOneAndUpdate := fun _ _ _ _ => Throw (Error "connection closed")
|}.

(** A driver that is down. *)
Definition cursors_down : Cursors string (list string) unit unit := {|
  driver_find := fun _ _ _ => Throw (Error "connection closed");
  driver_aggregate := fun _ _ => Throw (Error "connection closed");
  driver_findOneAndUpdate := fun _ _ _ _ => Throw (Error "connection closed")
|}.

(** A collection whose inserts are rejected by the server. *)
Definition repo_down : RepoBase string unit := {|
  collection := {| collectionName := "test";
                   driver_findOne := fun _ _ => Throw (Error "connection closed");
                   driver_insertOne := fun _ => Throw (Error "connection closed") |};
  schema := tt
|}.

(** A collection holding [nameless]. *)
Definition repo_nameless : RepoBase string unit := {|
  collection := {| collectionName := "test";
                   driver_findOne := fun _ _ => Normal (Some nameless);
                   driver_insertOne := fun _ => Normal false |};
  schema := tt
|}.

(** [{ $set: { name: "John" }, count: 3 }] at address 1, [{ $set: ... }]
    alone at address 3 and [{ count: 3 }] alone at address 4 *)
Definition h_parts : heap := heap_of
  [ (1%positive, Object CPlain [("$set", VObject 2); ("count", VNumber 3)]);
    (2%positive, Object CPlain [("name", VString "John")]);
    (3%positive, Object CPlain [("$set", VObject 2)]);
    (4%positive, Object CPlain [("count", VNumber 3)]) ].

(** [{ $set: { name: "John", updated_at: 0 }, $inc: { count: 1 } }] at
    address 1 and [{ $set: { "user.name": "John" } }] at address 4 *)
Definition h_upd : heap := heap_of
  [ (1%positive, Object CPlain [("$set", VObject 2); ("$inc", VObject 3)]);
    (2%positive, Object CPlain [("name", VString "John"); ("updated_at", VNumber 0)]);
    (3%positive, Object CPlain [("count", VNumber 1)]);
    (4%positive, Object CPlain [("$set", VObject 5)]);
    (5%positive, Object CPlain [("user.name", VString "John")]) ].

(** A driver whose [findOneAndUpdate] returns [john]. *)
Definition cursors_found : Cursors string (list string) unit unit := {|
  driver_find := fun _ _ _ => Normal [];
  driver_aggregate := fun _ _ => Normal [];
  driver_findOneAndUpdate := fun _ _ _ _ => Normal (Some john)
|}.

(** A driver whose [aggregate] rejects with [null], as an aborted signal
    with that reason does. *)
Definition cursors_aborted : Cursors string (list string) unit unit := {|
  driver_find := fun _ _ _ => Throw (Thrown VNull);
  driver_aggregate := fun _ _ => Throw (Thrown VNull);
  driver_findOneAndUpdate := fun _ _ _ _ => Throw (Thrown VNull)
|}.

(** Update objects with an own key [__proto__], as [JSON.parse] builds
    them:
    - at 1, [{ $unset: { __proto__: "" } }];
    - at 3, [{ $set: { __proto__: { x: 1 } }, $inc: { __proto__: 2 } }];
    - at 7, [{ $set: { __proto__: { x: 1 } } }];
    - at 8, [{ $inc: { __proto__: 2 } }];
    - at 9, [{ __proto__: 5 }];
    - at 10, [{ $set: { __proto__: null }, __proto__: 5 }];
    - at 12, [{ $set: { __proto__: { x: 1 }, b: 2 }, a: 1 }]. *)
Definition h_proto : heap := heap_of
  [ (1%positive, Object CPlain [("$unset", VObject 2)]);
    (2%positive, Object CPlain [("__proto__", VString "")]);
    (3%positive, Object CPlain [("$set", VObject 4); ("$inc", VObject 5)]);
    (4%positive, Object CPlain [("__proto__", VObject 6)]);
    (5%positive, Object CPlain [("__proto__", VNumber 2)]);
    (6%positive, Object CPlain [("x", VNumber 1)]);
    (7%positive, Object CPlain [("$set", VObject 4)]);
    (8%positive, Object CPlain [("$inc", VObject 5)]);
    (9%positive, Object CPlain [("__proto__", VNumber 5)]);
    (10%positive, Object CPlain [("$set", VObject 11); ("__proto__", VNumber 5)]);
    (11%positive, Object CPlain [("__proto__", VNull)]);
    (12%positive, Object CPlain [("$set", VObject 13); ("a", VNumber 1)]);
    (13%positive, Object CPlain [("__proto__", VObject 6); ("b", VNumber 2)]) ].

End Fixtures.
Example test_set :
  extractUpdatePayload Tests.h_set 1 =
  Normal {| own := <["status" := VString "sent"]> (<["name" := VString "John"]> ∅);
            proto := ObjectPrototype |}.
Proof. reflexivity. Qed.

Example test_mixed :
  extractUpdatePayload Tests.h_mixed 1 =
  Normal {| own := <["last_attempt_at" := Tests.now]> (<["archivedAt" := VUndefined]>
                   (<["count" := VNumber 1]> (<["status" := VString "sent"]> ∅)));
            proto := ObjectPrototype |}.
Proof. reflexivity. Qed.

Example test_direct_after_operator :
  extractUpdatePayload Tests.h_dup 1 =
  Normal {| own := {[ "name" := VString "Alice" ]}; proto := ObjectPrototype |}.
Proof. reflexivity. Qed.

Example test_empty_update :
  extractUpdatePayload (heap_of []) 1 = Normal empty_object.
Proof. reflexivity. Qed.

Example test_inc_and_null :
  extractUpdatePayload Tests.h_inc 1 =
  Normal {| own := <["name" := VString "Alice"]> (<["count" := VNumber 2]>
                   (<["status" := VNull]> ∅));
            proto := ObjectPrototype |}.
Proof. reflexivity. Qed.

Example test_dot_in_set :
  extractUpdatePayload Tests.h_dot 1 =
  Throw (Error ("Dot notation keys are not supported yet: " +:+ dquote +:+ "user.name" +:+ dquote)).
Proof. reflexivity. Qed.

(** [{ $set: { __proto__: { x: 1 }, b: 2 }, a: 1 }] with an own key
    [__proto__]: the object becomes the prototype, the own keys are [b] and
    [a]. *)
Example test_proto_object :
  extractUpdatePayload Fixtures.h_proto 12 =
  Normal {| own := <["a" := VNumber 1]> (<["b" := VNumber 2]> ∅); proto := ObjectAt 6 |}.
Proof. reflexivity. Qed.

(** [{ __proto__: 5 }]: the accessor ignores a number. *)
Example test_proto_number :
  extractUpdatePayload Fixtures.h_proto 9 = Normal empty_object.
Proof. reflexivity. Qed.

(** [{ $set: { __proto__: null }, __proto__: 5 }]: without a prototype the
    second assignment creates an own property. *)
Example test_proto_null :
  extractUpdatePayload Fixtures.h_proto 10 =
  Normal {| own := {[ "__proto__" := VNumber 5 ]}; proto := NullPrototype |}.
Proof. reflexivity. Qed.

(** ** String tests *)

Lemma startsWith_dollar_set : startsWith "$" "$set" = true.
Proof. reflexivity. Qed.

Lemma includes_dot_example : includes "." "profile.contact.email" = true.
Proof. reflexivity. Qed.

Lemma is_nonnull_object_ref (v : value) :
  is_nonnull_object v = true ↔ ∃ a, v = VObject a.
Proof.
  split.
  - destruct v; try discriminate. eauto.
  - intros [a ->]. reflexivity.
Qed.

(** ** Assignments to the accumulator *)

Lemma set_property_other_name (h : heap) (k : string) (v : value) (o : payload) :
  k ≠ "__proto__" →
  set_property h k v o = {| own := <[k := v]> (own o); proto := proto o |}.
Proof.
  intros Hk. unfold set_property. by apply String.eqb_neq in Hk as ->.
Qed.

Lemma set_property_own_lookup (h : heap) (k f : string) (v : value) (o : payload) :
  f ≠ "__proto__" →
  own (set_property h k v o) !! f = if bool_decide (k = f) then Some v else own o !! f.
Proof.
  intros Hf. unfold set_property.
  destruct (String.eqb_spec k "__proto__") as [->|Hk]; simpl.
  - rewrite bool_decide_eq_false_2 by done.
    destruct (reaches_proto_setter h o); simpl.
    + by destruct v.
    + by rewrite lookup_insert_ne.
  - case_bool_decide; subst; [apply lookup_insert_eq | by apply lookup_insert_ne].
Qed.

Lemma set_property_own_origin (h : heap) (k f : string) (v w : value) (o : payload) :
  own (set_property h k v o) !! f = Some w →
  (k = f ∧ v = w) ∨ own o !! f = Some w.
Proof.
  unfold set_property.
  destruct (String.eqb k "__proto__" && reaches_proto_setter h o).
  - destruct v; simpl; by right.
  - simpl. destruct (decide (k = f)) as [->|Hne].
    + rewrite lookup_insert_eq. intros [= ->]. by left.
    + rewrite lookup_insert_ne by done. by right.
Qed.

Lemma assign_app (h : heap) (ws1 ws2 : list (string * value)) (acc : payload) :
  assign h (ws1 ++ ws2) acc = assign h ws2 (assign h ws1 acc).
Proof. unfold assign. apply foldl_app. Qed.

Lemma assign_flat_app (ws1 ws2 : list (string * value)) (m : gmap string value) :
  assign_flat (ws1 ++ ws2) m = assign_flat ws2 (assign_flat ws1 m).
Proof. unfold assign_flat. apply foldl_app. Qed.

Lemma last_write_app (f : string) (ws1 ws2 : list (string * value)) :
  last_write f (ws1 ++ ws2) =
  match last_write f ws2 with
  | Some w => Some w
  | None => last_write f ws1
  end.
Proof.
  induction ws1 as [|[k v] ws1 IH]; simpl.
  - destruct (last_write f ws2); reflexivity.
  - rewrite IH. destruct (last_write f ws2); reflexivity.
Qed.

Lemma last_write_None (f : string) (ws : list (string * value)) :
  last_write f ws = None ↔ f ∉ ws.*1.
Proof.
  induction ws as [|[k v] ws IH]; simpl.
  - split; [intros _; apply not_elem_of_nil | done].
  - rewrite not_elem_of_cons. destruct (last_write f ws) as [w|].
    + split; [done|]. intros [_ Hn]. apply IH in Hn. done.
    + case_bool_decide; subst.
      * split; [done | intros [Hn _]; done].
      * split; [intros _; split; [congruence | by apply IH] | done].
Qed.

Lemma last_write_split (f : string) (v : value) (l1 l2 : list (string * value)) :
  f ∉ l2.*1 → last_write f (l1 ++ (f, v) :: l2) = Some v.
Proof.
  intros Hn. rewrite last_write_app. simpl.
  apply last_write_None in Hn. rewrite Hn.
  by rewrite bool_decide_eq_true_2.
Qed.

Lemma last_write_elem (f : string) (v : value) (ws : list (string * value)) :
  last_write f ws = Some v → (f, v) ∈ ws.
Proof.
  induction ws as [|[k w] ws IH]; simpl; [done|].
  destruct (last_write f ws) as [w'|].
  - intros Hw. apply list_elem_of_further. by apply IH.
  - case_bool_decide; [|done]. intros [= ->]. subst. apply list_elem_of_here.
Qed.

(** Away from [__proto__], the own properties of the accumulator follow the
    last write. *)
Lemma assign_own_lookup (h : heap) (f : string) (ws : list (string * value))
    (acc : payload) :
  f ≠ "__proto__" →
  own (assign h ws acc) !! f =
  match last_write f ws with
  | Some w => Some w
  | None => own acc !! f
  end.
Proof.
  intros Hf. revert acc. induction ws as [|[k v] ws IH]; intros acc; [done|].
  unfold assign in *. simpl. rewrite IH.
  destruct (last_write f ws); [done|].
  rewrite set_property_own_lookup by done. by case_bool_decide.
Qed.

Lemma assign_own_origin (h : heap) (f : string) (w : value)
    (ws : list (string * value)) (acc : payload) :
  own (assign h ws acc) !! f = Some w → (f, w) ∈ ws ∨ own acc !! f = Some w.
Proof.
  revert acc. induction ws as [|[k v] ws IH]; intros acc; [by right|].
  unfold assign in *. simpl. intros Hw. apply IH in Hw as [Hin|Hw].
  - left. by apply list_elem_of_further.
  - apply set_property_own_origin in Hw as [[-> ->]|Hw]; [|by right].
    left. apply list_elem_of_here.
Qed.

(** Without a write to [__proto__], the accumulator keeps its prototype and
    its own properties are those of the flat mapping. *)
Lemma assign_plain (h : heap) (ws : list (string * value)) (acc : payload) :
  forallb (fun f => negb (String.eqb f "__proto__")) ws.*1 = true →
  assign h ws acc = {| own := assign_flat ws (own acc); proto := proto acc |}.
Proof.
  revert acc. induction ws as [|[k v] ws IH]; intros acc; [by destruct acc|].
  simpl. intros [Hk Hws]%andb_true_iff.
  apply negb_true_iff, String.eqb_neq in Hk.
  unfold assign, assign_flat in *. simpl.
  rewrite set_property_other_name by done. by rewrite IH.
Qed.

Lemma assign_flat_lookup (f : string) (ws : list (string * value))
    (m : gmap string value) :
  assign_flat ws m !! f =
  match last_write f ws with
  | Some w => Some w
  | None => m !! f
  end.
Proof.
  revert m. induction ws as [|[k v] ws IH]; intros m; simpl; [done|].
  unfold assign_flat in *. simpl. rewrite IH.
  destruct (last_write f ws); [done|].
  case_bool_decide; subst.
  - apply lookup_insert_eq.
  - by apply lookup_insert_ne.
Qed.

Lemma operator_writes_names (key : string) (fields : list (string * value)) :
  (operator_writes key fields).*1 = fields.*1.
Proof.
  unfold operator_writes. rewrite <- list_fmap_compose. done.
Qed.

Lemma writes_cons (h : heap) (e : string * value) (es : list (string * value)) :
  writes h (e :: es) = entry_writes h e ++ writes h es.
Proof. reflexivity. Qed.

Lemma writes_app (h : heap) (es1 es2 : list (string * value)) :
  writes h (es1 ++ es2) = writes h es1 ++ writes h es2.
Proof. unfold writes. apply bind_app. Qed.

(** ** The loops, characterised

    A run throws at the first checked name that contains a dot, and
    otherwise returns the accumulator after all assignments. *)

Lemma find_app_dotted (l1 l2 : list string) :
  List.find (includes ".") (l1 ++ l2) =
  match List.find (includes ".") l1 with
  | Some f => Some f
  | None => List.find (includes ".") l2
  end.
Proof.
  induction l1 as [|x l1 IH]; simpl; [done|].
  destruct (includes "." x); [done | apply IH].
Qed.

Lemma walk_operator_run (h : heap) (key : string) (fields : list (string * value))
    (acc : payload) :
  walk_operator h key fields acc =
  match List.find (includes ".") fields.*1 with
  | Some f => Throw (Error (dot_notation_message f))
  | None => Normal (assign h (operator_writes key fields) acc)
  end.
Proof.
  revert acc. induction fields as [|[fk fv] fields IH]; intros acc; simpl; [done|].
  destruct (includes "." fk); [done|].
  rewrite IH. done.
Qed.

Lemma walk_entries_run (h : heap) (entries : list (string * value)) (acc : payload) :
  walk_entries h entries acc =
  match first_dotted h entries with
  | Some f => Throw (Error (dot_notation_message f))
  | None => Normal (assign h (writes h entries) acc)
  end.
Proof.
  unfold first_dotted, checked_names.
  revert acc. induction entries as [|[key val] entries IH]; intros acc; [done|].
  rewrite writes_cons, fmap_app, find_app_dotted, assign_app.
  unfold entry_writes, is_nonnull_object. simpl.
  destruct (startsWith "$" key).
  - destruct (String.eqb (typeof val) "object" && negb (is_null val)).
    + rewrite walk_operator_run, operator_writes_names.
      destruct (List.find (includes ".") (Object_entries h val).*1); simpl; [done|].
      apply IH.
    + simpl. apply IH.
  - simpl. destruct (includes "." key); [done|]. apply IH.
Qed.

Lemma first_dotted_None (h : heap) (entries : list (string * value)) :
  first_dotted h entries = None ↔ dot_free h entries = true.
Proof.
  unfold first_dotted, dot_free.
  induction (checked_names h entries) as [|x l IH]; simpl; [done|].
  destruct (includes "." x); simpl; [done | apply IH].
Qed.

Lemma extract_dot_free (h : heap) (update : addr) :
  dot_free h (props (h update)) = true →
  extractUpdatePayload h update =
  Normal (assign h (writes h (props (h update))) empty_object).
Proof.
  intros Hd. apply first_dotted_None in Hd.
  unfold extractUpdatePayload, walk. simpl.
  rewrite walk_entries_run, Hd. done.
Qed.

Lemma writes_field_post (h : heap) (f : string) (post : list (string * value)) :
  existsb (writes_field h f) post = false → last_write f (writes h post) = None.
Proof.
  intros Hp. apply last_write_None.
  induction post as [|e post IH].
  - apply not_elem_of_nil.
  - simpl in Hp. apply orb_false_iff in Hp as [He Hp].
    rewrite writes_cons, fmap_app, not_elem_of_app. split; [|by apply IH].
    unfold writes_field in He. by apply bool_decide_eq_false in He.
Qed.

(** The last entry that writes a field other than [__proto__] decides its
    value. *)
Lemma last_writer_decides (h : heap) (update : addr)
    (pre post : list (string * value)) (e : string * value) (f : string) (v : value) :
  f ≠ "__proto__" →
  props (h update) = pre ++ e :: post →
  dot_free h (props (h update)) = true →
  last_write f (entry_writes h e) = Some v →
  existsb (writes_field h f) post = false →
  ∃ p, extractUpdatePayload h update = Normal p ∧ own p !! f = Some v.
Proof.
  intros Hf Hes Hd He Hp. eexists. split; [by apply extract_dot_free|].
  rewrite assign_own_lookup by done.
  rewrite Hes, writes_app, writes_cons, !last_write_app.
  by rewrite (writes_field_post _ _ _ Hp), He.
Qed.

Lemma operator_last_write (op f : string) (v : value) (l1 l2 : list (string * value)) :
  f ∉ l2.*1 →
  last_write f (operator_writes op (l1 ++ (f, v) :: l2)) = Some (contributed op v).
Proof.
  intros Hn. unfold operator_writes. rewrite fmap_app, fmap_cons. simpl.
  apply last_write_split. by rewrite <- list_fmap_compose.
Qed.

Lemma block_last_write (h : heap) (op f : string) (a : addr) (v : value)
    (l1 l2 : list (string * value)) :
  startsWith "$" op = true →
  props (h a) = l1 ++ (f, v) :: l2 →
  f ∉ l2.*1 →
  last_write f (entry_writes h (op, VObject a)) = Some (contributed op v).
Proof.
  intros Hop Ha Hn. unfold entry_writes. simpl. rewrite Hop, Ha.
  by apply operator_last_write.
Qed.

Lemma proto_free_names (h : heap) (es : list (string * value)) :
  proto_free h es = true →
  forallb (fun f => negb (String.eqb f "__proto__")) (writes h es).*1 = true.
Proof. done. Qed.

Lemma extract_plain (h : heap) (update : addr) :
  dot_free h (props (h update)) = true →
  proto_free h (props (h update)) = true →
  extractUpdatePayload h update =
  Normal {| own := assign_flat (writes h (props (h update))) ∅;
            proto := ObjectPrototype |}.
Proof.
  intros Hd Hp. rewrite extract_dot_free by done. by rewrite assign_plain.
Qed.

(** ** Direct keys and operator blocks on the same field *)

(** X26.  On an update object without dotted names, a direct top-level
    assignment of a field other than [__proto__] decides the field's value
    in the payload when no entry after it in key order writes that field: a
    direct key placed after the operator blocks overrides them. *)
Theorem direct_key_after_operators_wins (h : heap) (update : addr)
    (pre post : list (string * value)) (f : string) (v : value) :
  props (h update) = pre ++ (f, v) :: post →
  startsWith "$" f = false →
  f ≠ "__proto__" →
  dot_free h (props (h update)) = true →
  existsb (writes_field h f) post = false →
  ∃ p, extractUpdatePayload h update = Normal p ∧ own p !! f = Some v.
Proof.
  intros Hes Hf Hproto Hd Hp.
  apply (last_writer_decides h update pre post (f, v)); try done.
  unfold entry_writes. simpl. rewrite Hf. simpl.
  by rewrite bool_decide_eq_true_2.
Qed.

Lemma direct_key_after_operators_wins_witness :
  props (Tests.h_dup 1%positive) = [("$set", VObject 2)] ++ ("name", VString "Alice") :: [] ∧
  ∃ p, extractUpdatePayload Tests.h_dup 1 = Normal p ∧
       own p !! "name" = Some (VString "Alice").
Proof.
  split; [reflexivity|].
  apply (direct_key_after_operators_wins Tests.h_dup 1%positive
           [("$set", VObject 2)] [] "name" (VString "Alice")); try reflexivity.
  discriminate.
Defined.

(** C1.  The code at the failing input [{ name: "Alice", $set: { name:
    "John" } }]: the direct key comes first in key order, and the payload
    holds the operator's value, not the direct one. *)
Theorem direct_key_before_operator_loses :
  props (Tests.h_dup 3%positive) = [("name", VString "Alice"); ("$set", VObject 2)] ∧
  props (Tests.h_dup 2%positive) = [("name", VString "John")] ∧
  ∃ p, extractUpdatePayload Tests.h_dup 3 = Normal p ∧
       own p !! "name" = Some (VString "John") ∧
       own p !! "name" ≠ Some (VString "Alice").
Proof.
  split; [reflexivity|]. split; [reflexivity|].
  eexists. split; [reflexivity|]. split; [reflexivity | discriminate].
Qed.

(** ** Dot notation *)

Lemma find_dotted_Some (l : list string) (f : string) :
  f ∈ l → includes "." f = true →
  ∃ g, List.find (includes ".") l = Some g ∧ g ∈ l ∧ includes "." g = true.
Proof.
  intros Hin Hf. induction l as [|x l IH]; [by apply elem_of_nil in Hin|].
  simpl. destruct (includes "." x) eqn:Hx.
  - exists x. split; [done|]. split; [apply list_elem_of_here | done].
  - apply elem_of_cons in Hin as [->|Hin]; [congruence|].
    destruct (IH Hin) as (g & Hg & Hgl & Hgd).
    exists g. split; [done|]. split; [by apply list_elem_of_further | done].
Qed.

Lemma checked_names_elem (h : heap) (entries : list (string * value)) (f : string) :
  f ∈ checked_names h entries ↔
  (∃ v, (f, v) ∈ entries ∧ startsWith "$" f = false) ∨
  (∃ op a v, (op, VObject a) ∈ entries ∧ startsWith "$" op = true ∧ (f, v) ∈ props (h a)).
Proof.
  unfold checked_names, writes. rewrite list_elem_of_fmap. split.
  - intros ([f' w] & -> & Hw). apply list_elem_of_bind in Hw as ([key val] & Hw & He).
    unfold entry_writes in Hw. simpl in *.
    destruct (startsWith "$" key) eqn:Hk.
    + destruct (is_nonnull_object val) eqn:Ho; [|by apply elem_of_nil in Hw].
      apply is_nonnull_object_ref in Ho as [a ->]. simpl in Hw.
      unfold operator_writes in Hw. apply list_elem_of_fmap in Hw as ([fk fv] & Heq & Hfk).
      simpl in Heq. injection Heq as -> ->. right. by exists key, a, fv.
    + apply list_elem_of_singleton in Hw. injection Hw as -> ->. left. by exists val.
  - intros [(v & Hin & Hf) | (op & a & v & Hin & Hop & Hfa)].
    + exists (f, v). split; [done|]. apply list_elem_of_bind. exists (f, v).
      split; [|done]. unfold entry_writes. simpl. rewrite Hf. apply list_elem_of_here.
    + exists (f, contributed op v). split; [done|]. apply list_elem_of_bind.
      exists (op, VObject a). split; [|done]. unfold entry_writes. simpl. rewrite Hop.
      unfold operator_writes. apply list_elem_of_fmap. by exists (f, v).
Qed.

(** C2.  If some field name of the update object contains a dot, as a direct
    top-level key or inside an operator's object, [extractUpdatePayload]
    throws: the outcome is no payload but an [Error] whose message is
    [Dot notation keys are not supported yet: ] followed by the offending
    name between double quotes, the offending name being the first dotted
    name in iteration order. *)
Theorem dotted_name_throws (h : heap) (update : addr) (f : string) :
  (∃ v, (f, v) ∈ props (h update) ∧ startsWith "$" f = false) ∨
  (∃ op a v, (op, VObject a) ∈ props (h update) ∧ startsWith "$" op = true ∧
             (f, v) ∈ props (h a)) →
  includes "." f = true →
  ∃ g, first_dotted h (props (h update)) = Some g ∧
       g ∈ checked_names h (props (h update)) ∧
       includes "." g = true ∧
       extractUpdatePayload h update =
         Throw (Error ("Dot notation keys are not supported yet: "
                       +:+ String "034" "" +:+ g +:+ String "034" "")).
Proof.
  intros Hin Hf. apply checked_names_elem in Hin.
  destruct (find_dotted_Some _ _ Hin Hf) as (g & Hg & Hgl & Hgd).
  exists g. repeat split; try done.
  unfold extractUpdatePayload, walk. simpl.
  rewrite walk_entries_run. unfold first_dotted. by rewrite Hg.
Qed.

Lemma dotted_name_throws_witness :
  includes "." "user.name" = true ∧
  ∃ g, first_dotted Tests.h_dot (props (Tests.h_dot 1%positive)) = Some g ∧
       g ∈ checked_names Tests.h_dot (props (Tests.h_dot 1%positive)) ∧
       includes "." g = true ∧
       extractUpdatePayload Tests.h_dot 1 =
         Throw (Error ("Dot notation keys are not supported yet: "
                       +:+ String "034" "" +:+ g +:+ String "034" "")).
Proof.
  split; [reflexivity|].
  apply (dotted_name_throws Tests.h_dot 1%positive "user.name"); [|reflexivity].
  right. exists "$set", 2%positive, (VString "Alice").
  split; [apply list_elem_of_here|]. split; [reflexivity | apply list_elem_of_here].
Defined.

Example test_dot_in_direct_key :
  extractUpdatePayload Tests.h_dot 3 =
  Throw (Error (dot_notation_message "profile.contact.email")).
Proof. reflexivity. Qed.

(** ** Operator blocks *)

Lemma assign_flat_dom (ws : list (string * value)) (m : gmap string value) :
  dom (assign_flat ws m) = list_to_set ws.*1 ∪ dom m.
Proof.
  revert m. induction ws as [|[k v] ws IH]; intros m; simpl.
  - by rewrite (left_id_L ∅ (∪)).
  - unfold assign_flat in *. simpl. rewrite IH, dom_insert_L.
    by rewrite (assoc_L (∪)), (comm_L (∪) (list_to_set ws.*1) {[k]}).
Qed.

Lemma operator_entry_names (h : heap) (e : string * value) :
  startsWith "$" e.1 = true → (entry_writes h e).*1 = nested_field_names h e.
Proof.
  intros He. unfold entry_writes, nested_field_names. rewrite He.
  destruct (is_nonnull_object e.2); [apply operator_writes_names | done].
Qed.

Lemma operators_only_names (h : heap) (entries : list (string * value)) :
  forallb (fun e => startsWith "$" e.1) entries = true →
  checked_names h entries = entries ≫= nested_field_names h.
Proof.
  unfold checked_names. induction entries as [|e entries IH]; [done|].
  intros Hall. simpl in Hall. apply andb_true_iff in Hall as [He Hall].
  rewrite writes_cons, fmap_app, (IH Hall), (operator_entry_names _ _ He). done.
Qed.

Lemma operators_only_post (h : heap) (f : string) (post : list (string * value)) :
  forallb (fun e => startsWith "$" e.1) post = true →
  existsb (fun e => bool_decide (f ∈ nested_field_names h e)) post = false →
  existsb (writes_field h f) post = false.
Proof.
  induction post as [|e post IH]; [done|]. simpl.
  intros Hall Hex. apply andb_true_iff in Hall as [He Hall].
  apply orb_false_iff in Hex as [Hf Hex].
  unfold writes_field at 1. rewrite (operator_entry_names _ _ He), Hf. simpl.
  by apply IH.
Qed.

Lemma proto_free_not_proto (h : heap) (es : list (string * value)) (f : string) :
  proto_free h es = true → f ∈ checked_names h es → f ≠ "__proto__".
Proof.
  unfold proto_free. intros Hall Hin ->.
  induction (checked_names h es) as [|x l IH]; [by apply elem_of_nil in Hin|].
  simpl in Hall. apply andb_true_iff in Hall as [Hx Hl].
  apply elem_of_cons in Hin as [<-|Hin]; [done | by apply IH].
Qed.

(** X27.  When every key of the update object begins with [$] and no nested
    field name contains a dot or is [__proto__], extraction returns a
    payload, with the prototype of an object literal, whose key set is the
    union of the nested field names of all operator blocks, and each field
    holds the nested value of the last block, in key order, that mentions
    it; under [$unset] that value is [undefined], with the key present. *)
Theorem operators_only_payload (h : heap) (update : addr) :
  forallb (fun e => startsWith "$" e.1) (props (h update)) = true →
  forallb (fun f => negb (includes "." f))
          (props (h update) ≫= nested_field_names h) = true →
  forallb (fun f => negb (String.eqb f "__proto__"))
          (props (h update) ≫= nested_field_names h) = true →
  ∃ p, extractUpdatePayload h update = Normal p ∧
       proto p = ObjectPrototype ∧
       dom (own p) = list_to_set (props (h update) ≫= nested_field_names h) ∧
       ∀ pre op a post l1 f v l2,
         props (h update) = pre ++ (op, VObject a) :: post →
         props (h a) = l1 ++ (f, v) :: l2 →
         f ∉ l2.*1 →
         existsb (fun e => bool_decide (f ∈ nested_field_names h e)) post = false →
         own p !! f = Some (if String.eqb op "$unset" then VUndefined else v) ∧
         (op = "$unset" → own p !! f = Some VUndefined ∧ f ∈ dom (own p)).
Proof.
  intros Hall Hdot Hproto.
  assert (Hd : dot_free h (props (h update)) = true).
  { unfold dot_free. by rewrite operators_only_names. }
  assert (Hp : proto_free h (props (h update)) = true).
  { unfold proto_free. by rewrite operators_only_names. }
  eexists. split; [by apply extract_plain|]. simpl. split; [done|]. split.
  - rewrite assign_flat_dom, dom_empty_L, (right_id_L ∅ (∪)).
    fold (checked_names h (props (h update))). by rewrite operators_only_names.
  - intros pre op a post l1 f v l2 Hes Ha Hn Hpost.
    assert (Hall' := Hall). rewrite Hes, forallb_app in Hall'.
    apply andb_true_iff in Hall' as [_ Hall']. simpl in Hall'.
    apply andb_true_iff in Hall' as [Hop Hall'].
    assert (Hpf : assign_flat (writes h (props (h update))) ∅ !! f
                  = Some (contributed op v)).
    { rewrite assign_flat_lookup, Hes, writes_app, writes_cons, !last_write_app.
      rewrite (writes_field_post h f post) by by apply operators_only_post.
      by rewrite (block_last_write h op f a v l1 l2). }
    split; [exact Hpf|]. intros ->. split; [exact Hpf|].
    apply elem_of_dom. rewrite Hpf. by eexists.
Qed.

Lemma operators_only_payload_witness :
  forallb (fun e => startsWith "$" e.1) (props (Tests.h_ops 1%positive)) = true ∧
  ∃ p, extractUpdatePayload Tests.h_ops 1 = Normal p ∧
       dom (own p) =
         list_to_set (props (Tests.h_ops 1%positive) ≫= nested_field_names Tests.h_ops) ∧
       own p !! "status" = Some VUndefined ∧ own p !! "count" = Some (VNumber 2).
Proof.
  split; [reflexivity|].
  destruct (operators_only_payload Tests.h_ops 1%positive)
    as (p & Hp & _ & Hdom & Hval); [reflexivity | reflexivity | reflexivity |].
  exists p. split; [exact Hp|]. split; [exact Hdom|]. split.
  - apply (Hval [("$set", VObject 2); ("$inc", VObject 3)] "$unset" 4%positive []
                [] "status" (VString "") []); try reflexivity.
    apply not_elem_of_nil.
  - apply (Hval [("$set", VObject 2)] "$inc" 3%positive [("$unset", VObject 4)]
                [] "count" (VNumber 2) []); try reflexivity.
    apply not_elem_of_nil.
Defined.

(** C3.  The code at the failing input [{ $unset: { __proto__: "" } }],
    whose only key is operator-prefixed and whose only nested name has no
    dot: the assignment of [undefined] to [__proto__] goes to the accessor
    of [Object.prototype] and is ignored, so the payload has no key at all,
    although the nested field names are not empty. *)
Theorem unset_proto_leaves_no_key :
  props (Fixtures.h_proto 1%positive) = [("$unset", VObject 2)] ∧
  props (Fixtures.h_proto 2%positive) = [("__proto__", VString "")] ∧
  props (Fixtures.h_proto 1%positive) ≫= nested_field_names Fixtures.h_proto
    = ["__proto__"] ∧
  extractUpdatePayload Fixtures.h_proto 1 = Normal empty_object ∧
  own empty_object !! "__proto__" = None.
Proof. repeat split. Qed.

(** X3.  An operator block decides a field other than [__proto__] when it
    is the last entry in key order to write it, whatever the direct keys and
    operator blocks before it assigned to the field: the payload holds the
    block's contribution, [undefined] under [$unset]. *)
Theorem last_operator_block_decides (h : heap) (update : addr)
    (pre post : list (string * value)) (op f : string) (a : addr) (v : value)
    (l1 l2 : list (string * value)) :
  props (h update) = pre ++ (op, VObject a) :: post →
  startsWith "$" op = true →
  props (h a) = l1 ++ (f, v) :: l2 →
  f ∉ l2.*1 →
  f ≠ "__proto__" →
  dot_free h (props (h update)) = true →
  existsb (writes_field h f) post = false →
  ∃ p, extractUpdatePayload h update = Normal p ∧
       own p !! f = Some (if String.eqb op "$unset" then VUndefined else v).
Proof.
  intros Hes Hop Ha Hn Hf Hd Hpost.
  apply (last_writer_decides h update pre post (op, VObject a)); try done.
  by apply (block_last_write h op f a v l1 l2).
Qed.

Lemma last_operator_block_decides_witness :
  (∃ p, extractUpdatePayload Tests.h_dup 3 = Normal p ∧
        own p !! "name" = Some (VString "John")) ∧
  (∃ p, extractUpdatePayload Tests.h_ops 1 = Normal p ∧
        own p !! "count" = Some (VNumber 2)) ∧
  (∃ p, extractUpdatePayload Tests.h_ops 1 = Normal p ∧
        own p !! "status" = Some VUndefined).
Proof.
  split; [|split].
  - apply (last_operator_block_decides Tests.h_dup 3%positive
             [("name", VString "Alice")] [] "$set" "name" 2%positive
             (VString "John") [] []); try reflexivity; [apply not_elem_of_nil | discriminate].
  - apply (last_operator_block_decides Tests.h_ops 1%positive
             [("$set", VObject 2)] [("$unset", VObject 4)] "$inc" "count" 3%positive
             (VNumber 2) [] []); try reflexivity; [apply not_elem_of_nil | discriminate].
  - apply (last_operator_block_decides Tests.h_ops 1%positive
             [("$set", VObject 2); ("$inc", VObject 3)] [] "$unset" "status" 4%positive
             (VString "") [] []); try reflexivity; [apply not_elem_of_nil | discriminate].
Defined.

(** C4.  The code at the failing input [{ $set: { __proto__: { x: 1 } },
    $inc: { __proto__: 2 } }], where two operator blocks assign the same
    undotted name: the object of the first block becomes the prototype of
    the payload, the number of the later block is ignored, and the payload
    has no field for the name. *)
Theorem later_operator_on_proto_ignored :
  props (Fixtures.h_proto 3%positive) = [("$set", VObject 4); ("$inc", VObject 5)] ∧
  props (Fixtures.h_proto 4%positive) = [("__proto__", VObject 6)] ∧
  props (Fixtures.h_proto 5%positive) = [("__proto__", VNumber 2)] ∧
  ∃ p, extractUpdatePayload Fixtures.h_proto 3 = Normal p ∧
       own p !! "__proto__" = None ∧
       proto p = ObjectAt 6 ∧
       own p !! "__proto__" ≠ Some (VNumber 2).
Proof.
  repeat split. eexists. repeat split. discriminate.
Qed.

(** Two runs over the same heap that perform the same writes have the same
    outcome. *)
Lemma walk_entries_same_writes (h : heap) (es es' : list (string * value))
    (acc : payload) :
  writes h es = writes h es' → walk_entries h es acc = walk_entries h es' acc.
Proof.
  intros Hw. rewrite !walk_entries_run. unfold first_dotted, checked_names.
  by rewrite Hw.
Qed.

Lemma writes_same_update (h h' : heap) (es : list (string * value)) :
  (∀ key a, (key, VObject a) ∈ es → props (h a) = props (h' a)) →
  writes h es = writes h' es.
Proof.
  induction es as [|[key val] es IH]; intros Hsame; [done|].
  rewrite !writes_cons, IH.
  - f_equal. unfold entry_writes. simpl.
    destruct (startsWith "$" key); [|done].
    destruct (is_nonnull_object val) eqn:Ho; [|done].
    apply is_nonnull_object_ref in Ho as [a ->]. simpl.
    by rewrite (Hsame key a (list_elem_of_here _ _)).
  - intros k a Hin. apply (Hsame k a). by apply list_elem_of_further.
Qed.

(** ** Values under [$set] *)

(** X28.  On an update object without dotted names and without the name
    [__proto__], an object (a plain object, a Date) assigned to a field
    under [$set] reaches the payload as the very same reference, when that
    assignment is the last write to the field; and the outcome of the
    extraction is the same over every heap that agrees on the update object
    and on the operator values directly under it: whatever lies deeper,
    dotted keys included, is never read. *)
Theorem set_value_by_reference (h : heap) (update : addr)
    (pre post : list (string * value)) (a b : addr) (f : string)
    (l1 l2 : list (string * value)) :
  props (h update) = pre ++ ("$set", VObject a) :: post →
  props (h a) = l1 ++ (f, VObject b) :: l2 →
  f ∉ l2.*1 →
  dot_free h (props (h update)) = true →
  proto_free h (props (h update)) = true →
  existsb (writes_field h f) post = false →
  (∃ p, extractUpdatePayload h update = Normal p ∧ own p !! f = Some (VObject b)) ∧
  (∀ h', same_update h h' update →
         extractUpdatePayload h' update = extractUpdatePayload h update).
Proof.
  intros Hes Ha Hn Hd Hproto Hpost. split.
  - apply (last_writer_decides h update pre post ("$set", VObject a)); try done.
    + apply (proto_free_not_proto h (props (h update))); [done|].
      apply checked_names_elem. right. exists "$set", a, (VObject b).
      rewrite Hes, Ha. split; [|split; [done|]].
      * apply elem_of_app. right. apply list_elem_of_here.
      * apply elem_of_app. right. apply list_elem_of_here.
    + by apply (block_last_write h "$set" f a (VObject b) l1 l2).
  - intros h' [Hu Hblocks].
    assert (Hw : writes h' (props (h' update)) = writes h (props (h update))).
    { rewrite <- Hu. symmetry. by apply writes_same_update. }
    rewrite (extract_plain h update) by done.
    rewrite (extract_plain h' update).
    + by rewrite Hw.
    + unfold dot_free, checked_names. by rewrite Hw.
    + unfold proto_free, checked_names. by rewrite Hw.
Qed.

Lemma set_value_by_reference_witness :
  props (Tests.h_deep 11%positive) = [("deep.key", VObject 12)] ∧
  (∃ p, extractUpdatePayload Tests.h_deep 1 = Normal p ∧
        own p !! "level1" = Some (VObject 10)) ∧
  extractUpdatePayload Tests.h_deep' 1 = extractUpdatePayload Tests.h_deep 1.
Proof.
  split; [reflexivity|].
  destruct (set_value_by_reference Tests.h_deep 1%positive [] [] 2%positive 10%positive
              "level1" [] [("last_attempt_at", Tests.now)]) as [Hp Hindep];
    try reflexivity.
  { intros Hin. apply list_elem_of_singleton in Hin. discriminate. }
  split; [exact Hp|]. apply Hindep. split; [reflexivity|].
  intros key a' Hin. apply list_elem_of_singleton in Hin.
  injection Hin as -> ->. reflexivity.
Defined.

Example test_date_by_reference :
  ∃ p, extractUpdatePayload Tests.h_deep 1 = Normal p ∧
       own p !! "last_attempt_at" = Some Tests.now.
Proof. eexists. split; reflexivity. Qed.

(** C5.  The code at the failing input [{ $set: { __proto__: { x: 1 } } }],
    where an object is assigned to the undotted name [__proto__] under
    [$set]: the object is not placed in the payload as a field, it becomes
    the payload's prototype. *)
Theorem set_proto_places_no_field :
  props (Fixtures.h_proto 7%positive) = [("$set", VObject 4)] ∧
  props (Fixtures.h_proto 4%positive) = [("__proto__", VObject 6)] ∧
  ∃ p, extractUpdatePayload Fixtures.h_proto 7 = Normal p ∧
       own p = ∅ ∧
       proto p = ObjectAt 6 ∧
       own p !! "__proto__" ≠ Some (VObject 6).
Proof.
  repeat split. eexists. repeat split. discriminate.
Qed.

(** ** Operators without an object, operators other than [$unset] *)

(** C7.  An entry whose key begins with [$] and whose value is not a
    non-null object is skipped: the extraction has the same outcome, payload
    or exception, as on the update object without that entry. *)
Theorem non_object_operator_skipped (h : heap) (update update' : addr)
    (pre post : list (string * value)) (key : string) (val : value) :
  props (h update) = pre ++ (key, val) :: post →
  props (h update') = pre ++ post →
  startsWith "$" key = true →
  is_nonnull_object val = false →
  extractUpdatePayload h update = extractUpdatePayload h update'.
Proof.
  intros Hu Hu' Hkey Hval. unfold extractUpdatePayload, walk. simpl.
  apply walk_entries_same_writes.
  rewrite Hu, Hu', !writes_app, writes_cons.
  unfold entry_writes at 1. simpl. by rewrite Hkey, Hval.
Qed.

Lemma non_object_operator_skipped_witness :
  is_nonnull_object (VString "oops") = false ∧
  extractUpdatePayload Tests.h_skip 1 = extractUpdatePayload Tests.h_skip 2 ∧
  extractUpdatePayload Tests.h_skip 2 =
    Normal {| own := {[ "name" := VString "Alice" ]}; proto := ObjectPrototype |}.
Proof.
  split; [reflexivity|]. split; [|reflexivity].
  apply (non_object_operator_skipped Tests.h_skip 1%positive 2%positive
           [] [("name", VString "Alice")] "$set" (VString "oops")); reflexivity.
Defined.

Lemma contributed_verbatim (key : string) (v : value) :
  key ≠ "$unset" → contributed key v = v.
Proof.
  intros Hk. unfold contributed. by apply String.eqb_neq in Hk as ->.
Qed.

Lemma operator_writes_verbatim (key : string) (fields : list (string * value)) :
  key ≠ "$unset" → operator_writes key fields = fields.
Proof.
  intros Hk. unfold operator_writes. induction fields as [|[fk fv] fields IH]; [done|].
  rewrite fmap_cons, IH. simpl. by rewrite contributed_verbatim.
Qed.

(** X30.  Only the key [$unset] is told apart.  For a key that begins with
    [$] and differs from [$unset], known to MongoDB or not, replacing the
    key by any other such key leaves the outcome of the extraction
    unchanged, and the inner loop assigns each nested entry to the
    accumulator with its own value. *)
Theorem operators_other_than_unset_alike (h : heap) (update update' : addr)
    (pre post : list (string * value)) (key key' : string) (val : value) :
  props (h update) = pre ++ (key, val) :: post →
  props (h update') = pre ++ (key', val) :: post →
  startsWith "$" key = true →
  startsWith "$" key' = true →
  key ≠ "$unset" →
  key' ≠ "$unset" →
  extractUpdatePayload h update = extractUpdatePayload h update' ∧
  ∀ fields acc,
    forallb (fun kv => negb (includes "." kv.1)) fields = true →
    walk_operator h key fields acc =
    Normal (foldl (fun o kv => set_property h kv.1 kv.2 o) acc fields).
Proof.
  intros Hu Hu' Hkey Hkey' Hne Hne'. split.
  - unfold extractUpdatePayload, walk. simpl. apply walk_entries_same_writes.
    rewrite Hu, Hu', !writes_app, !writes_cons. do 2 f_equal.
    unfold entry_writes. simpl. rewrite Hkey, Hkey'.
    destruct (is_nonnull_object val); [|done].
    by rewrite !operator_writes_verbatim.
  - intros fields acc Hdot. rewrite walk_operator_run, operator_writes_verbatim by done.
    replace (List.find (includes ".") fields.*1) with (@None string); [done|].
    symmetry. induction fields as [|[fk fv] fields IH]; [done|].
    simpl in *. apply andb_true_iff in Hdot as [Hfk Hdot].
    apply negb_true_iff in Hfk. rewrite Hfk. by apply IH.
Qed.

Lemma operators_other_than_unset_alike_witness :
  "$rename" ≠ "$unset" ∧ "$setOnInsert" ≠ "$unset" ∧
  extractUpdatePayload Tests.h_alike 1 = extractUpdatePayload Tests.h_alike 3 ∧
  extractUpdatePayload Tests.h_alike 1 =
    Normal {| own := {[ "count" := VString "total" ]}; proto := ObjectPrototype |}.
Proof.
  split; [discriminate|]. split; [discriminate|]. split; [|reflexivity].
  apply (operators_other_than_unset_alike Tests.h_alike 1%positive 3%positive [] []
           "$rename" "$setOnInsert" (VObject 2)); try reflexivity; discriminate.
Defined.

(** C8.  The code at the failing input [{ $inc: { __proto__: 2 } }], an
    operator other than [$unset] with one nested entry: the entry is not
    written into the payload, the accessor of [Object.prototype] ignores the
    number and the payload stays without keys. *)
Theorem operator_proto_entry_not_written :
  props (Fixtures.h_proto 8%positive) = [("$inc", VObject 5)] ∧
  props (Fixtures.h_proto 5%positive) = [("__proto__", VNumber 2)] ∧
  extractUpdatePayload Fixtures.h_proto 8 = Normal empty_object ∧
  own empty_object !! "__proto__" ≠ Some (VNumber 2).
Proof. repeat split. discriminate. Qed.

(** ** One pass against the two passes of the specification *)

Lemma spec_nested_run (operator : string) (nested : list (string * value))
    (acc : gmap string value) :
  spec_nested operator nested acc =
  match List.find (includes ".") nested.*1 with
  | Some f => Throw (Error (dot_notation_message f))
  | None => Normal (assign_flat (operator_writes operator nested) acc)
  end.
Proof.
  revert acc. induction nested as [|[name v] nested IH]; intros acc; simpl; [done|].
  destruct (includes "." name); [done|].
  unfold contributed. case_bool_decide as Hop.
  - subst. simpl. apply IH.
  - apply String.eqb_neq in Hop. rewrite Hop. apply IH.
Qed.

Lemma dot_free_cons (h : heap) (e : string * value) (es : list (string * value)) :
  dot_free h (e :: es) = dot_free h [e] && dot_free h es.
Proof.
  unfold dot_free, checked_names. rewrite !writes_cons, !fmap_app, !forallb_app.
  simpl. by rewrite andb_true_r.
Qed.

Lemma dot_free_entry (h : heap) (e : string * value) :
  dot_free h [e] = true → List.find (includes ".") (entry_writes h e).*1 = None.
Proof.
  unfold dot_free, checked_names, writes. simpl. rewrite app_nil_r.
  induction ((entry_writes h e).*1) as [|x l IH]; [done|]. simpl.
  intros [Hx Hl]%andb_true_iff. apply negb_true_iff in Hx. rewrite Hx. by apply IH.
Qed.

Lemma spec_step3_run (h : heap) (entries : list (string * value))
    (acc : gmap string value) :
  dot_free h entries = true →
  spec_step3 h entries acc =
  Normal (assign_flat (writes h (List.filter (fun e => startsWith "$" e.1) entries)) acc).
Proof.
  revert acc. induction entries as [|[key v] entries IH]; intros acc; [done|].
  rewrite dot_free_cons. intros [He Hes]%andb_true_iff.
  apply dot_free_entry in He. unfold entry_writes in He.
  cbn [spec_step3 List.filter fst snd] in *.
  destruct (startsWith "$" key) eqn:Hk; [|by apply IH].
  rewrite writes_cons, assign_flat_app. unfold entry_writes. cbn [fst snd]. rewrite Hk.
  destruct v; try by apply IH.
  change (is_nonnull_object (VObject a)) with true in *.
  cbn [Object_entries] in *. rewrite operator_writes_names in He.
  rewrite spec_nested_run, He. by apply IH.
Qed.

Lemma spec_step4_run (h : heap) (entries : list (string * value))
    (acc : gmap string value) :
  dot_free h entries = true →
  spec_step4 entries acc =
  Normal (assign_flat
            (writes h (List.filter (fun e => negb (startsWith "$" e.1)) entries)) acc).
Proof.
  revert acc. induction entries as [|[key v] entries IH]; intros acc; [done|].
  rewrite dot_free_cons. intros [He Hes]%andb_true_iff.
  apply dot_free_entry in He. unfold entry_writes in He.
  cbn [spec_step4 List.filter fst snd] in *.
  destruct (startsWith "$" key) eqn:Hk; cbn [negb]; [by apply IH|].
  rewrite writes_cons. unfold entry_writes. cbn [fst snd]. rewrite Hk.
  cbn [fmap list_fmap List.find fst] in He. destruct (includes "." key); [done|].
  by apply IH.
Qed.

Lemma operators_silent (h : heap) (f : string) (es : list (string * value)) :
  existsb (fun e => startsWith "$" e.1 && writes_field h f e) es = false →
  last_write f (writes h (List.filter (fun e => startsWith "$" e.1) es)) = None.
Proof.
  induction es as [|e es IH]; [done|]. cbn [existsb List.filter].
  intros [He Hes]%orb_false_iff.
  destruct (startsWith "$" e.1); [|by apply IH].
  rewrite writes_cons, last_write_app, (IH Hes).
  apply last_write_None. unfold writes_field in He. by apply bool_decide_eq_false in He.
Qed.

(** The last write to a field is the same in key order and in the order
    "operators first, direct keys second", as long as no operator block
    re-assigns a field after a direct key. *)
Lemma last_write_two_pass (h : heap) (f : string) (es : list (string * value)) :
  direct_not_reassigned h es = true →
  last_write f (writes h es) =
  last_write f (writes h (List.filter (fun e => startsWith "$" e.1) es) ++
                writes h (List.filter (fun e => negb (startsWith "$" e.1)) es)).
Proof.
  induction es as [|[key val] es IH]; [done|].
  cbn [direct_not_reassigned List.filter fst]. intros [Hhere Hrest]%andb_true_iff.
  specialize (IH Hrest). rewrite last_write_app in IH.
  rewrite writes_cons, !last_write_app.
  destruct (startsWith "$" key) eqn:Hk; cbn [negb orb] in *.
  - rewrite writes_cons, last_write_app, IH.
    destruct (last_write f (writes h (List.filter _ es))); done.
  - apply negb_true_iff in Hhere.
    rewrite writes_cons, last_write_app, IH.
    unfold entry_writes. cbn [fst]. rewrite Hk. cbn [last_write].
    destruct (last_write f (writes h
                (List.filter (fun e => negb (startsWith "$" e.1)) es))); [done|].
    case_bool_decide as Hf; [|clear IH; by destruct (last_write f _)]. subst.
    by rewrite (operators_silent _ _ _ Hhere).
Qed.

(** X29.  On an update object without dotted names and without the name
    [__proto__], in which no operator block assigns a field that a direct
    key before it has assigned, [extractUpdatePayload] returns an object
    with the prototype of an object literal whose own properties are the
    mapping that the two-pass algorithm of the specification returns. *)
Theorem one_pass_agrees_with_two_pass (h : heap) (update : addr) :
  dot_free h (props (h update)) = true →
  proto_free h (props (h update)) = true →
  direct_not_reassigned h (props (h update)) = true →
  ∃ p, extractUpdatePayload h update = Normal p ∧
       proto p = ObjectPrototype ∧
       extract_two_pass h update = Normal (own p).
Proof.
  intros Hd Hp Hdir. eexists. split; [by apply extract_plain|]. split; [done|].
  unfold extract_two_pass. rewrite spec_step3_run by done. simpl.
  rewrite (spec_step4_run h) by done. f_equal. rewrite <- assign_flat_app.
  apply map_eq. intros f. rewrite !assign_flat_lookup.
  by rewrite (last_write_two_pass h f _ Hdir).
Qed.

Lemma one_pass_agrees_with_two_pass_witness :
  direct_not_reassigned Tests.h_mixed (props (Tests.h_mixed 1%positive)) = true ∧
  ∃ p, extractUpdatePayload Tests.h_mixed 1 = Normal p ∧
       proto p = ObjectPrototype ∧
       extract_two_pass Tests.h_mixed 1 = Normal (own p).
Proof.
  split; [reflexivity|].
  apply (one_pass_agrees_with_two_pass Tests.h_mixed 1%positive); reflexivity.
Defined.

(** C6.  The code at the failing input [{ name: "Alice", $set: { name:
    "John" } }], which has no dotted name: the single pass ends with the
    operator's value, the two passes of the specification end with the
    direct value. *)
Theorem one_pass_differs_from_two_pass :
  dot_free Tests.h_dup (props (Tests.h_dup 3%positive)) = true ∧
  extractUpdatePayload Tests.h_dup 3 =
    Normal {| own := {[ "name" := VString "John" ]}; proto := ObjectPrototype |} ∧
  extract_two_pass Tests.h_dup 3 = Normal {[ "name" := VString "Alice" ]} ∧
  ({[ "name" := VString "John" ]} : gmap string value) !! "name"
    ≠ ({[ "name" := VString "Alice" ]} : gmap string value) !! "name".
Proof.
  split; [reflexivity|]. split; [reflexivity|]. split; [reflexivity|].
  discriminate.
Qed.

(** ** More on [extractUpdatePayload] *)

Lemma entry_writes_elem (h : heap) (e : string * value) (f : string) (v : value) :
  (f, v) ∈ entry_writes h e →
  (e = (f, v) ∧ startsWith "$" f = false) ∨
  (∃ a w, e.2 = VObject a ∧ startsWith "$" e.1 = true ∧ (f, w) ∈ props (h a) ∧
          v = contributed e.1 w).
Proof.
  destruct e as [key val]. unfold entry_writes. simpl.
  destruct (startsWith "$" key) eqn:Hk.
  - destruct (is_nonnull_object val) eqn:Ho; [|by intros ?%elem_of_nil].
    apply is_nonnull_object_ref in Ho as [a ->]. simpl. unfold operator_writes.
    intros ([fk fv] & [= -> ->] & Hin)%list_elem_of_fmap. right. by exists a, fv.
  - intros [= -> ->]%list_elem_of_singleton. by left.
Qed.

(** X1.  On an update object without dotted names the extraction returns a
    payload in which a name other than [__proto__] is a key exactly when it
    is a direct key of the update object or a field name nested in one of
    its operator objects. *)
Theorem payload_keys (h : heap) (update : addr) :
  dot_free h (props (h update)) = true →
  ∃ p, extractUpdatePayload h update = Normal p ∧
       ∀ f, f ≠ "__proto__" →
            (f ∈ dom (own p) ↔
             (∃ v, (f, v) ∈ props (h update) ∧ startsWith "$" f = false) ∨
             (∃ op a v, (op, VObject a) ∈ props (h update) ∧
                        startsWith "$" op = true ∧ (f, v) ∈ props (h a))).
Proof.
  intros Hd. eexists. split; [by apply extract_dot_free|].
  intros f Hf. rewrite <- checked_names_elem. unfold checked_names.
  rewrite elem_of_dom, assign_own_lookup by done. simpl. rewrite lookup_empty.
  destruct (last_write f (writes h (props (h update)))) as [w|] eqn:Hl.
  - split; [|by eexists]. intros _. apply last_write_elem in Hl.
    apply list_elem_of_fmap. by exists (f, w).
  - apply last_write_None in Hl. split; [by intros [? ?] | done].
Qed.

Lemma payload_keys_witness :
  ∃ p, extractUpdatePayload Tests.h_mixed 1 = Normal p ∧
       "archivedAt" ∈ dom (own p) ∧ "last_attempt_at" ∈ dom (own p).
Proof.
  destruct (payload_keys Tests.h_mixed 1%positive) as (p & Hp & Hdom); [reflexivity|].
  exists p. split; [exact Hp|]. split.
  - apply Hdom; [discriminate|]. right. exists "$unset", 3%positive, (VString "").
    split; [apply list_elem_of_further, list_elem_of_here|].
    split; [reflexivity | apply list_elem_of_here].
  - apply Hdom; [discriminate|]. left. exists Tests.now.
    split; [do 2 apply list_elem_of_further; apply list_elem_of_here | reflexivity].
Defined.

(** X2.  The dot-notation error is the only failure of the extraction: a
    payload is returned exactly when no checked name contains a dot, and an
    exception, if any, is the dot-notation error for a dotted name of the
    update object. *)
Theorem extraction_fails_only_on_dots (h : heap) (update : addr) :
  ((∃ p, extractUpdatePayload h update = Normal p) ↔
   dot_free h (props (h update)) = true) ∧
  ∀ e, extractUpdatePayload h update = Throw e →
       ∃ g, g ∈ checked_names h (props (h update)) ∧ includes "." g = true ∧
            e = Error (dot_notation_message g).
Proof.
  unfold extractUpdatePayload, walk. simpl. rewrite walk_entries_run.
  rewrite <- first_dotted_None.
  destruct (first_dotted h (props (h update))) as [g|] eqn:Hg.
  - split; [split; [by intros [p ?] | done]|].
    intros e [= <-]. exists g. unfold first_dotted in Hg.
    apply List.find_some in Hg as [Hin Hdot]. apply list_elem_of_In in Hin. done.
  - split; [split; [done | by eexists]|]. done.
Qed.

Lemma direct_only_writes (h : heap) (es : list (string * value)) :
  forallb (fun e => negb (startsWith "$" e.1)) es = true → writes h es = es.
Proof.
  induction es as [|e es IH]; [done|]. cbn [forallb].
  intros [He Hes]%andb_true_iff. rewrite writes_cons, (IH Hes).
  unfold entry_writes. apply negb_true_iff in He. by rewrite He.
Qed.

Lemma assign_list_to_map (es : list (string * value)) :
  NoDup es.*1 → assign_flat es ∅ = list_to_map es.
Proof.
  intros Hnd. apply map_eq. intros f. rewrite assign_flat_lookup, lookup_empty.
  destruct (last_write f es) as [v|] eqn:Hl.
  - symmetry. apply elem_of_list_to_map; [done|]. by apply last_write_elem.
  - symmetry. apply not_elem_of_list_to_map. by apply last_write_None.
Qed.

Lemma forallb_names {A : Type} (P : string → bool) (es : list (string * A)) :
  forallb (fun e => P e.1) es = forallb P es.*1.
Proof. induction es as [|e es IH]; [done|]. simpl. by rewrite IH. Qed.

(** X4.  An update object with direct keys only, none of them dotted and
    none of them [__proto__], is its own payload: the extraction returns an
    object with the prototype of an object literal whose own properties are
    the entries of the update object. *)
Theorem direct_only_update_returned (h : heap) (update : addr) :
  forallb (fun e => negb (startsWith "$" e.1)) (props (h update)) = true →
  forallb (fun e => negb (includes "." e.1)) (props (h update)) = true →
  forallb (fun e => negb (String.eqb e.1 "__proto__")) (props (h update)) = true →
  NoDup (props (h update)).*1 →
  extractUpdatePayload h update =
  Normal {| own := list_to_map (props (h update)); proto := ObjectPrototype |}.
Proof.
  intros Hdirect Hdots Hproto Hnd.
  rewrite extract_plain.
  - by rewrite direct_only_writes, assign_list_to_map.
  - unfold dot_free, checked_names. rewrite direct_only_writes by done.
    by rewrite <- (forallb_names (fun f => negb (includes "." f))).
  - unfold proto_free, checked_names. rewrite direct_only_writes by done.
    by rewrite <- (forallb_names (fun f => negb (String.eqb f "__proto__"))).
Qed.

Lemma direct_only_update_returned_witness :
  extractUpdatePayload Tests.h_skip 2 =
  Normal {| own := list_to_map [("name", VString "Alice")]; proto := ObjectPrototype |}.
Proof.
  apply (direct_only_update_returned Tests.h_skip 2%positive); try reflexivity.
  apply NoDup_singleton.
Defined.

(** X5.  The extraction invents no value: a value of the payload is the
    value of a direct key of that name, or the value nested under that name
    in an operator object, or [undefined]. *)
Theorem payload_values_from_update (h : heap) (update : addr)
    (p : payload) (f : string) (v : value) :
  extractUpdatePayload h update = Normal p →
  own p !! f = Some v →
  v = VUndefined ∨
  ((f, v) ∈ props (h update) ∧ startsWith "$" f = false) ∨
  (∃ op a, (op, VObject a) ∈ props (h update) ∧ startsWith "$" op = true ∧
           (f, v) ∈ props (h a)).
Proof.
  unfold extractUpdatePayload, walk. simpl. rewrite walk_entries_run.
  destruct (first_dotted h (props (h update))); [done|].
  intros [= <-]. intros [Hl | Hl]%assign_own_origin; [|done].
  unfold writes in Hl. apply list_elem_of_bind in Hl as (e & Hw & He).
  apply entry_writes_elem in Hw as [[-> Hf] | (a & w & Hv & Hop & Hin & ->)].
  - right. left. done.
  - destruct e as [op val]. simpl in *. subst val. unfold contributed.
    destruct (String.eqb op "$unset"); [by left|].
    right. right. by exists op, a.
Qed.

Lemma payload_values_from_update_witness :
  Tests.now = VUndefined ∨
  (("last_attempt_at", Tests.now) ∈ props (Tests.h_mixed 1%positive) ∧
   startsWith "$" "last_attempt_at" = false) ∨
  (∃ op a, (op, VObject a) ∈ props (Tests.h_mixed 1%positive) ∧
           startsWith "$" op = true ∧ ("last_attempt_at", Tests.now) ∈ props (Tests.h_mixed a)).
Proof.
  apply (payload_values_from_update Tests.h_mixed 1%positive
           {| own := <["last_attempt_at" := Tests.now]> (<["archivedAt" := VUndefined]>
                     (<["count" := VNumber 1]> (<["status" := VString "sent"]> ∅)));
              proto := ObjectPrototype |}
           "last_attempt_at" Tests.now); reflexivity.
Defined.

Lemma walk_entries_app (h : heap) (es1 es2 : list (string * value)) (acc : payload) :
  walk_entries h (es1 ++ es2) acc = walk_entries h es1 acc ≫= walk_entries h es2.
Proof.
  revert acc. induction es1 as [|[key val] es1 IH]; intros acc; [done|].
  simpl. destruct (startsWith "$" key).
  - destruct (String.eqb (typeof val) "object" && negb (is_null val)); [|apply IH].
    destruct (walk_operator h key (Object_entries h val) acc); simpl; [apply IH | done].
  - destruct (includes "." key); [done | apply IH].
Qed.

(** X6.  Extraction composes along the key order: for an update object
    whose entries are those of a first object followed by those of a
    second, the outcome is that of extracting the first and continuing the
    loop over the second with the payload obtained; an exception of the
    first part ends the run. *)
Theorem extraction_composes (h : heap) (update u1 u2 : addr) :
  props (h update) = props (h u1) ++ props (h u2) →
  extractUpdatePayload h update =
  (p ← extractUpdatePayload h u1; walk_entries h (props (h u2)) p).
Proof.
  intros Hes. unfold extractUpdatePayload, walk. simpl.
  rewrite Hes. apply walk_entries_app.
Qed.

Lemma extraction_composes_witness :
  extractUpdatePayload Fixtures.h_parts 1 =
  (p ← extractUpdatePayload Fixtures.h_parts 3;
   walk_entries Fixtures.h_parts (props (Fixtures.h_parts 4%positive)) p) ∧
  extractUpdatePayload Fixtures.h_parts 1 =
  Normal {| own := <["count" := VNumber 3]> (<["name" := VString "John"]> ∅);
            proto := ObjectPrototype |}.
Proof.
  split; [|reflexivity].
  apply (extraction_composes Fixtures.h_parts 1%positive 3%positive 4%positive).
  reflexivity.
Defined.

(** ** [findOne] without a match *)

(** C9.  When the lookup of the driver yields [null], [findOne] resolves to
    [{ data: null, status: "ok" }], with [error] and [queryFilter]
    undefined. *)
Theorem findOne_no_match {Filter Schema Issues : Type} `{!Zod Schema Issues}
    (this : RepoBase Filter Schema) (filter : Filter) (select : option (list string))
    (ps : option (gmap string Z) * Schema) :
  generateProjectionAndSchema this select = Normal ps →
  driver_findOne (collection this) filter ps.1 = Normal None →
  findOne this filter select =
  Normal {| data := None; status := ok; error := None; queryFilter := None |}.
Proof.
  intros Hps Hfind. unfold findOne. rewrite Hps. simpl. rewrite Hfind. reflexivity.
Qed.

Lemma findOne_no_match_witness :
  driver_findOne (collection Tests.repo_empty) "id-7" (Some {[ "name" := 1%Z ]}) = Normal None ∧
  findOne (Zod0 := Tests.zod_accept) Tests.repo_empty "id-7" (Some ["name"]) =
  Normal {| data := None; status := ok; error := None; queryFilter := None |}.
Proof.
  split; [reflexivity|].
  apply (findOne_no_match (Zod0 := Tests.zod_accept) Tests.repo_empty "id-7"
           (Some ["name"]) (Some {[ "name" := 1%Z ]}, tt)); reflexivity.
Defined.

(** ** [insertOne] and the timestamps *)

Lemma buildInsertPayload_overrides (now oid : value) (input : gmap string value) :
  buildInsertPayload now oid input !! "_id" = Some oid ∧
  buildInsertPayload now oid input !! "created_at" = Some now ∧
  buildInsertPayload now oid input !! "updated_at" = Some now ∧
  ∀ k, k ≠ "_id" → k ≠ "created_at" → k ≠ "updated_at" →
       buildInsertPayload now oid input !! k = input !! k.
Proof.
  unfold buildInsertPayload. repeat split.
  - rewrite !lookup_insert_ne by discriminate. apply lookup_insert_eq.
  - rewrite lookup_insert_ne by discriminate. apply lookup_insert_eq.
  - apply lookup_insert_eq.
  - intros k H1 H2 H3. by rewrite !lookup_insert_ne.
Qed.

(** C10, as amended.  [insertOne] hands to the schema a document in which
    [_id] is the new ObjectId and [created_at] and [updated_at] are the same
    new Date, whatever the caller supplied for them.  A successful
    [insertOne] returns, and has inserted, what the schema parsed out of that
    document; it satisfies [created_at == updated_at] when the schema
    returns both fields as it got them. *)
Theorem insertOne_timestamps {Filter Schema Issues : Type} `{!Zod Schema Issues}
    (this : RepoBase Filter Schema) (now oid : value) (input : gmap string value)
    (r : InsertResponse) :
  insertOne this now oid input = Normal r →
  ins_status r = ok →
  ∃ d, ins_data r = Some d ∧
       safeParse (schema this) (buildInsertPayload now oid input) = ParseSuccess d ∧
       driver_insertOne (collection this) d = Normal true ∧
       buildInsertPayload now oid input !! "_id" = Some oid ∧
       buildInsertPayload now oid input !! "created_at" = Some now ∧
       buildInsertPayload now oid input !! "updated_at" = Some now ∧
       (d !! "created_at" = buildInsertPayload now oid input !! "created_at" →
        d !! "updated_at" = buildInsertPayload now oid input !! "updated_at" →
        d !! "created_at" = Some now ∧ d !! "updated_at" = Some now).
Proof.
  destruct (buildInsertPayload_overrides now oid input) as (Hid & Hc & Hu & _).
  unfold insertOne.
  destruct (safeParse (schema this) (buildInsertPayload now oid input)) as [d|issues].
  - destruct (driver_insertOne (collection this) d) as [[|]|e] eqn:Hins; simpl;
      intros [= <-]; try discriminate.
    intros _. exists d. repeat split; try done; congruence.
  - destruct (stringify_issues issues); simpl; [|done]. by intros [= <-].
Qed.

Lemma insertOne_timestamps_witness :
  ∃ r d, insertOne (Zod0 := Tests.zod_accept) Tests.repo_empty Tests.now (VObject 7)
           {[ "name" := VString "John"; "created_at" := VNumber 0 ]} = Normal r ∧
         ins_status r = ok ∧ ins_data r = Some d ∧
         d !! "_id" = Some (VObject 7) ∧
         d !! "created_at" = Some Tests.now ∧ d !! "updated_at" = Some Tests.now.
Proof.
  eexists.
  destruct (insertOne_timestamps (Zod0 := Tests.zod_accept) Tests.repo_empty Tests.now
              (VObject 7) {[ "name" := VString "John"; "created_at" := VNumber 0 ]}
              _ eq_refl eq_refl)
    as (d & Hd & Hparse & _ & Hid & _ & _ & Hsame).
  injection Hparse as Hparse. exists d. split; [reflexivity|]. split; [reflexivity|].
  split; [exact Hd|].
  split; [by rewrite <- Hparse|]. apply Hsame; by rewrite <- Hparse.
Defined.

(** C10, as stated, fails: with a schema that transforms [updated_at], a
    successful [insertOne] returns a document whose [created_at] and
    [updated_at] differ. *)
Lemma insertOne_schema_transform :
  ∃ d, insertOne (Zod0 := Tests.zod_transform) Tests.repo_empty Tests.now (VObject 7)
         {[ "name" := VString "John" ]} =
       Normal {| ins_data := Some d; ins_error := None; ins_status := ok |} ∧
       d !! "created_at" = Some Tests.now ∧
       d !! "updated_at" = Some (VNumber 1700000000000) ∧
       d !! "created_at" ≠ d !! "updated_at".
Proof.
  eexists. split; [reflexivity|]. split; [reflexivity|]. split; [reflexivity|].
  discriminate.
Qed.

(** ** More on [findOne] *)

(** X7.  The envelope of [findOne] is consistent: [status] is ["ok"]
    exactly when [error] is undefined and exactly when no filter is echoed;
    with ["hasErrors"], [data] is [null] and the filter of the call is
    echoed. *)
Theorem findOne_envelope {Filter Schema Issues : Type} `{!Zod Schema Issues}
    (this : RepoBase Filter Schema) (filter : Filter) (select : option (list string))
    (r : QueryResponseSingle Filter) :
  findOne this filter select = Normal r →
  (status r = ok ↔ error r = None) ∧
  (status r = ok ↔ queryFilter r = None) ∧
  (status r = hasErrors → data r = None ∧ queryFilter r = Some filter).
Proof.
  unfold findOne.
  destruct (generateProjectionAndSchema this select) as [ps|]; [|done]. simpl.
  destruct (driver_findOne (collection this) filter ps.1) as [[doc|]|]; simpl; [| |done].
  - destruct (safeParse ps.2 doc); intros [= <-]; simpl; repeat split; done.
  - intros [= <-]. simpl. repeat split; done.
Qed.

Lemma findOne_envelope_witness :
  findOne (Zod0 := Fixtures.zod_named) Fixtures.repo_nameless "id-7" None =
  Normal (Build_QueryResponseSingle string None hasErrors
            (Some "1 test document failed validation during findOne") (Some "id-7")) ∧
  data (Build_QueryResponseSingle string None hasErrors
          (Some "1 test document failed validation during findOne") (Some "id-7")) = None.
Proof.
  split; [reflexivity|].
  destruct (findOne_envelope (Zod0 := Fixtures.zod_named) Fixtures.repo_nameless "id-7" None
              (Build_QueryResponseSingle string None hasErrors
                 (Some "1 test document failed validation during findOne") (Some "id-7")))
    as (_ & _ & Herr); [reflexivity|].
  apply Herr. reflexivity.
Defined.

(** X8.  [findOne] never returns a document the schema has not produced:
    non-null [data] is the output of parsing the document the driver found
    with the schema of the selection, and comes with status ["ok"]. *)
Theorem findOne_data_validated {Filter Schema Issues : Type} `{!Zod Schema Issues}
    (this : RepoBase Filter Schema) (filter : Filter) (select : option (list string))
    (r : QueryResponseSingle Filter) (d : gmap string value) :
  findOne this filter select = Normal r →
  data r = Some d →
  ∃ ps doc, generateProjectionAndSchema this select = Normal ps ∧
            driver_findOne (collection this) filter ps.1 = Normal (Some doc) ∧
            safeParse ps.2 doc = ParseSuccess d ∧
            status r = ok.
Proof.
  unfold findOne.
  destruct (generateProjectionAndSchema this select) as [ps|]; [|done]. simpl.
  destruct (driver_findOne (collection this) filter ps.1) as [[doc|]|] eqn:Hf;
    simpl; [| |done].
  - destruct (safeParse ps.2 doc) eqn:Hp; intros [= <-]; simpl; [|done].
    intros [= ->]. by exists ps, doc.
  - intros [= <-]. done.
Qed.

Lemma findOne_data_validated_witness :
  ∃ ps doc, generateProjectionAndSchema (Zod0 := Tests.zod_accept) Fixtures.repo_nameless None
              = Normal ps ∧
            driver_findOne (collection Fixtures.repo_nameless) "id-7" ps.1
              = Normal (Some doc) ∧
            safeParse (Zod := Tests.zod_accept) ps.2 doc = ParseSuccess Fixtures.nameless ∧
            ok = ok.
Proof.
  apply (findOne_data_validated (Zod0 := Tests.zod_accept) Fixtures.repo_nameless "id-7" None
           (Build_QueryResponseSingle string (Some Fixtures.nameless) ok None None)
           Fixtures.nameless); reflexivity.
Defined.

(** ** Selections *)

Lemma projection_lookup (fields : list string) (f : string) :
  (list_to_map ((fun field => (field, 1%Z)) <$> fields) : gmap string Z) !! f = Some 1%Z
  ↔ f ∈ fields.
Proof.
  induction fields as [|x fields IH]; simpl.
  - rewrite lookup_empty, elem_of_nil. split; [done | tauto].
  - rewrite elem_of_cons. destruct (decide (x = f)) as [->|Hne].
    + rewrite lookup_insert_eq. split; [by left | done].
    + rewrite lookup_insert_ne by done. rewrite IH. split; [by right|].
      intros [->|?]; done.
Qed.

(** X9.  For a non-empty selection on an object schema, the projection
    asks for every selected field with the value 1 and for nothing else,
    while the dynamic schema is built from the selected fields of the
    schema's shape only: a selected field outside the shape is projected
    but not validated. *)
Theorem selection_projection_and_schema {Filter Schema Issues : Type}
    `{!Zod Schema Issues} (this : RepoBase Filter Schema) (fields : list string) :
  isZodObject (schema this) = true →
  fields ≠ [] →
  ∃ m kept,
    generateProjectionAndSchema this (Some fields) =
      Normal (Some m, z_object (schema this) kept) ∧
    (∀ f, m !! f = Some 1%Z ↔ f ∈ fields) ∧
    (∀ f n, m !! f = Some n → n = 1%Z) ∧
    (∀ f, f ∈ kept ↔ f ∈ fields ∧ shape_has (schema this) f = true).
Proof.
  intros Hobj Hne.
  exists (list_to_map ((fun field => (field, 1%Z)) <$> fields)),
         (List.filter (shape_has (schema this)) fields).
  split; [|split; [|split]].
  - unfold generateProjectionAndSchema, generateDynamicSchema.
    destruct fields; [done|]. rewrite Hobj. reflexivity.
  - apply projection_lookup.
  - intros f n Hn. apply elem_of_list_to_map_2 in Hn.
    apply list_elem_of_fmap in Hn as (x & [= -> ->] & _). done.
  - intros f. rewrite list_elem_of_In, List.filter_In, <- list_elem_of_In. done.
Qed.

Lemma selection_projection_and_schema_witness :
  ∃ (m : gmap string Z) (kept : list string),
    generateProjectionAndSchema (Zod0 := Fixtures.zod_named) Tests.repo_empty
      (Some ["name"; "age"]) = Normal (Some m, tt) ∧
    m !! "age" = Some 1%Z ∧ "name" ∈ kept ∧ "age" ∉ kept.
Proof.
  destruct (selection_projection_and_schema (Zod0 := Fixtures.zod_named) Tests.repo_empty
              ["name"; "age"]) as (m & kept & Hps & Hm & _ & Hkept);
    [reflexivity | discriminate |].
  exists m, kept. split; [exact Hps|]. split; [|split].
  - apply Hm. apply list_elem_of_further, list_elem_of_here.
  - apply Hkept. split; [apply list_elem_of_here | reflexivity].
  - intros [_ Hshape]%Hkept. discriminate.
Defined.

(** ** More on [insertOne] *)


(** X11.  When the schema rejects the document built for the insert, the
    driver is not consulted: whatever the collection, the outcome is decided
    by [JSON.stringify] on the issues.  When it returns a text, the response
    is the validation failure with that text in the error; when it throws,
    as on a BigInt, [insertOne] rejects with its exception. *)
Theorem insertOne_validation_gates_driver {Filter Schema Issues : Type}
    `{!Zod Schema Issues} (this : RepoBase Filter Schema) (now oid : value)
    (input : gmap string value) (issues : Issues) :
  safeParse (schema this) (buildInsertPayload now oid input) = ParseFailure issues →
  ∀ c : Collection Filter,
    insertOne {| collection := c; schema := schema this |} now oid input =
    match stringify_issues issues with
    | Normal text =>
        Normal {| ins_data := None;
                  ins_error := Some ("Failed to insert document: schema validation failed"
                                     +:+ " " +:+ text);
                  ins_status := hasErrors |}
    | Throw e => Throw e
    end.
Proof.
  intros Hparse c. unfold insertOne. simpl. rewrite Hparse.
  by destruct (stringify_issues issues).
Qed.

Lemma insertOne_validation_gates_driver_witness :
  insertOne (Zod0 := Fixtures.zod_scalar) Tests.repo_empty Tests.now (VObject 7) Fixtures.john =
    Normal {| ins_data := None;
              ins_error := Some "Failed to insert document: schema validation failed []";
              ins_status := hasErrors |} ∧
  insertOne (Zod0 := Fixtures.zod_bigint) Tests.repo_empty Tests.now (VObject 7)
    Fixtures.nameless = Throw Fixtures.serialize_error.
Proof.
  split.
  - apply (insertOne_validation_gates_driver (Zod0 := Fixtures.zod_scalar) Fixtures.repo_down
             Tests.now (VObject 7) Fixtures.john tt). reflexivity.
  - apply (insertOne_validation_gates_driver (Zod0 := Fixtures.zod_bigint) Fixtures.repo_down
             Tests.now (VObject 7) Fixtures.nameless tt). reflexivity.
Defined.

(** X12.  What the caller supplies for [_id], [created_at] or [updated_at]
    has no effect on [insertOne]: the outcome is the same as without
    it. *)
Theorem insertOne_ignores_reserved_fields {Filter Schema Issues : Type}
    `{!Zod Schema Issues} (this : RepoBase Filter Schema) (now oid x : value)
    (input : gmap string value) :
  insertOne this now oid (<["_id" := x]> input) = insertOne this now oid input ∧
  insertOne this now oid (<["created_at" := x]> input) = insertOne this now oid input ∧
  insertOne this now oid (<["updated_at" := x]> input) = insertOne this now oid input.
Proof.
  assert (H1 : buildInsertPayload now oid (<["_id" := x]> input)
               = buildInsertPayload now oid input).
  { unfold buildInsertPayload. by rewrite insert_insert_eq. }
  assert (H2 : buildInsertPayload now oid (<["created_at" := x]> input)
               = buildInsertPayload now oid input).
  { unfold buildInsertPayload.
    rewrite (insert_insert_ne input "_id" "created_at") by discriminate.
    by rewrite insert_insert_eq. }
  assert (H3 : buildInsertPayload now oid (<["updated_at" := x]> input)
               = buildInsertPayload now oid input).
  { unfold buildInsertPayload.
    rewrite (insert_insert_ne input "_id" "updated_at") by discriminate.
    rewrite (insert_insert_ne (<["_id" := oid]> input) "created_at" "updated_at")
      by discriminate.
    by rewrite insert_insert_eq. }
  unfold insertOne. by rewrite H1, H2, H3.
Qed.

(** ** Validated result lists *)

Lemma validResults_fmap {Issues : Type}
    (f : gmap string value → SafeParseReturn Issues) (results : list (gmap string value)) :
  validResults (f <$> results) = omap (fun doc => parsed_data (f doc)) results.
Proof.
  unfold validResults. induction results as [|doc results IH]; [done|].
  rewrite fmap_cons. cbn [List.filter].
  destruct (f doc) eqn:Hdoc; simpl; rewrite Hdoc; simpl; [f_equal|]; exact IH.
Qed.

Lemma validResults_success {Issues : Type} (d : gmap string value)
    (ps : list (SafeParseReturn Issues)) :
  validResults (ParseSuccess d :: ps) = d :: validResults ps ∧
  invalidResults (ParseSuccess d :: ps) = invalidResults ps.
Proof. split; reflexivity. Qed.

Lemma validResults_failure {Issues : Type} (i : Issues)
    (ps : list (SafeParseReturn Issues)) :
  validResults (ParseFailure i :: ps) = validResults ps ∧
  invalidResults (ParseFailure i :: ps) = ParseFailure i :: invalidResults ps.
Proof. split; reflexivity. Qed.

Lemma results_split {Issues : Type} (ps : list (SafeParseReturn Issues)) :
  length (validResults ps) + length (invalidResults ps) = length ps.
Proof.
  induction ps as [|[d|i] ps IH]; [done| |].
  - destruct (validResults_success d ps) as [-> ->]. simpl. lia.
  - destruct (validResults_failure i ps) as [-> ->]. simpl. lia.
Qed.

Lemma all_valid_iff {Issues : Type} (ps : list (SafeParseReturn Issues)) :
  length (validResults ps) = length ps ↔ Forall (fun r => is_success r = true) ps.
Proof.
  pose proof (results_split ps) as Hsplit. split.
  - intros Hlen. assert (Hinv : length (invalidResults ps) = 0) by lia.
    clear Hsplit Hlen.
    induction ps as [|[d|i] ps IH]; [done| |].
    + destruct (validResults_success d ps) as [_ Hi]. rewrite Hi in Hinv.
      constructor; [done | by apply IH].
    + destruct (validResults_failure i ps) as [_ Hi]. by rewrite Hi in Hinv.
  - intros Hall. assert (Hinv : length (invalidResults ps) = 0); [|lia].
    clear Hsplit.
    induction Hall as [|[d|i] ps Hr _ IH]; [done| |done].
    destruct (validResults_success d ps) as [_ Hi]. by rewrite Hi.
Qed.

Lemma numbered_message_nonempty (s t : string) :
  String.eqb (s +:+ " " +:+ t) "" = false.
Proof. by destruct s. Qed.

(** ** [find] and [getAll] *)

(** ** [find] and [getAll] *)



(** X14.  When some document fails validation, [find] reports how many:
    the error text starts with the number of documents of the driver's
    result missing from [data], and the filter of the call is echoed; with
    status ["ok"] there is neither an error nor a filter. *)
Theorem find_reports_rejected_count
    {Filter Pipeline AggOptions UpdOptions Schema Issues : Type}
    `{!Zod Schema Issues} `{!Runtime Issues}
    (this : RepoBase Filter Schema) (driver : Cursors Filter Pipeline AggOptions UpdOptions)
    (filter : Filter) (max : option Z) (select : option (list string))
    (ps : option (gmap string Z) * Schema) (results : list (gmap string value))
    (r : QueryResponse Filter) :
  generateProjectionAndSchema this select = Normal ps →
  driver_find driver filter max ps.1 = Normal results →
  find this driver filter max select = Normal r →
  match q_status r with
  | ok => q_error r = None ∧ q_queryFilter r = None
  | hasErrors =>
      q_error r = Some (pretty (length results - length (q_data r)) +:+ " "
                        +:+ collectionName (collection this)
                        +:+ " document(s) failed validation during find") ∧
      q_queryFilter r = Some filter ∧
      length (q_data r) < length results
  end.
Proof.
  intros Hps Hfind. unfold find. rewrite Hps. simpl. rewrite Hfind. simpl.
  pose proof (results_split (safeParse ps.2 <$> results)) as Hsplit.
  rewrite length_fmap in Hsplit.
  destruct (Nat.eqb_spec (length (validResults (safeParse ps.2 <$> results)))
              (length results)) as [Heq|Hne]; simpl; [by intros [= <-]|].
  destruct (stringify_invalid _); simpl; [|done]. intros [= <-]. simpl.
  rewrite numbered_message_nonempty. split; [|split; [done | lia]].
  do 3 f_equal. lia.
Qed.

Lemma find_reports_rejected_count_witness :
  find (Zod0 := Fixtures.zod_named) (Runtime0 := Fixtures.runtime_plain)
    Tests.repo_empty Fixtures.cursors_two "all" None None =
  Normal {| q_data := [Fixtures.john];
            q_error := Some "1 test document(s) failed validation during find";
            q_status := hasErrors; q_queryFilter := Some "all" |} ∧
  1 < 2.
Proof.
  split; [reflexivity|].
  apply (find_reports_rejected_count (Zod0 := Fixtures.zod_named)
           (Runtime0 := Fixtures.runtime_plain) Tests.repo_empty
           Fixtures.cursors_two "all" None None (None, tt)
           [Fixtures.john; Fixtures.nameless]
           {| q_data := [Fixtures.john];
              q_error := Some "1 test document(s) failed validation during find";
              q_status := hasErrors; q_queryFilter := Some "all" |}); reflexivity.
Defined.


(** X16.  [getAll] queries with the filter [{}] and without projection,
    and validates with the repository's own schema: it rejects with the
    driver's exception when the driver rejects; otherwise the [data] of its
    response are the outputs of that schema for the documents of the whole
    result that it accepts, and there is a response when it accepts all of
    them. *)
Theorem getAll_uses_full_schema
    {Filter Pipeline AggOptions UpdOptions Schema Issues : Type}
    `{!Zod Schema Issues} `{!Runtime Issues}
    (this : RepoBase Filter Schema) (driver : Cursors Filter Pipeline AggOptions UpdOptions)
    (empty_filter : Filter) (max : option Z) :
  match driver_find driver empty_filter max None with
  | Throw e => getAll this driver empty_filter max = Throw e
  | Normal results =>
      (∀ r, getAll this driver empty_filter max = Normal r →
            q_data r = omap (fun doc => parsed_data (safeParse (schema this) doc)) results) ∧
      (Forall (fun doc => is_success (safeParse (schema this) doc) = true) results →
       ∃ r, getAll this driver empty_filter max = Normal r ∧ q_status r = ok)
  end.
Proof.
  unfold getAll, find. simpl.
  destruct (driver_find driver empty_filter max None) as [results|e]; simpl; [|done].
  pose proof (all_valid_iff (safeParse (schema this) <$> results)) as Hall.
  rewrite Forall_fmap, length_fmap in Hall.
  destruct (Nat.eqb_spec (length (validResults (safeParse (schema this) <$> results)))
              (length results)) as [Heq|Hne]; simpl.
  - split; [|by eexists]. intros r [= <-]. apply validResults_fmap.
  - split; [|intros Hv; exfalso; apply Hne; by apply Hall].
    destruct (stringify_invalid _); simpl; [|done].
    intros r [= <-]. apply validResults_fmap.
Qed.

(** ** [aggregate] *)

(** X17.  The envelope of [aggregate] is consistent: in a response,
    [status] is ["ok"] exactly when no pipeline is echoed, and then [error]
    is undefined; [status] is ["hasErrors"] exactly when the pipeline of
    the call is echoed.  [aggregate] rejects only when the value caught by
    its [catch] clause is [null] or [undefined], of which [message] cannot
    be read. *)
Theorem aggregate_envelope
    {Filter Pipeline AggOptions UpdOptions Schema Issues : Type}
    `{!Zod Schema Issues} `{!Runtime Issues}
    (this : RepoBase Filter Schema) (driver : Cursors Filter Pipeline AggOptions UpdOptions)
    (h : heap) (pipeline : Pipeline) (options : option AggOptions)
    (schema_arg : SchemaArg Schema) :
  (∀ r, aggregate this driver h pipeline options schema_arg = Normal r →
        (a_status r = ok ↔ a_pipeline r = None) ∧
        (a_status r = hasErrors ↔ a_pipeline r = Some pipeline) ∧
        (a_status r = ok → a_error r = VUndefined)) ∧
  (∀ e, aggregate this driver h pipeline options schema_arg = Throw e →
        e = nullish_read ∧
        (aggregate_try this driver pipeline options schema_arg = Throw (Thrown VNull) ∨
         aggregate_try this driver pipeline options schema_arg
           = Throw (Thrown VUndefined))).
Proof.
  unfold aggregate.
  destruct (aggregate_try this driver pipeline options schema_arg) as [r0|e0] eqn:Htry.
  - split; [|done]. intros r [= <-]. revert Htry. unfold aggregate_try.
    destruct (driver_aggregate driver pipeline options) as [results|]; [|done]. simpl.
    destruct schema_arg as [| |s]; simpl.
    + destruct (0 <? _)%nat; simpl.
      * destruct (stringify_invalid _); simpl; [|done]. intros [= <-]. simpl.
        by rewrite numbered_message_nonempty.
      * by intros [= <-].
    + by intros [= <-].
    + destruct (0 <? _)%nat; simpl.
      * destruct (stringify_invalid _); simpl; [|done]. intros [= <-]. simpl.
        by rewrite numbered_message_nonempty.
      * by intros [= <-].
  - unfold aggregate_catch. split.
    + intros r. destruct (error_message h e0); simpl; [|done]. by intros [= <-].
    + intros e. destruct e0 as [m|[]]; simpl; try done; intros [= <-];
        (split; [done|]); first [by left | by right].
Qed.

(** X18.  With a schema in effect (the one passed, or the repository's own
    when none is passed), [aggregate] validates every document of the
    driver's result.  When all of them parse, the response holds their
    outputs in the driver's order with status ["ok"].  When some fail and
    their report has a JSON form, [data] holds the outputs of those that
    parse, the error text starts with the number of the others, and the
    pipeline is echoed.  When [JSON.stringify] throws an Error on the
    report, the [catch] clause answers: no data at all, and the message of
    that Error. *)
Theorem aggregate_validates_each_result
    {Filter Pipeline AggOptions UpdOptions Schema Issues : Type}
    `{!Zod Schema Issues} `{!Runtime Issues}
    (this : RepoBase Filter Schema) (driver : Cursors Filter Pipeline AggOptions UpdOptions)
    (h : heap) (pipeline : Pipeline) (options : option AggOptions)
    (schema_arg : SchemaArg Schema) (s : Schema) (results : list (gmap string value)) :
  driver_aggregate driver pipeline options = Normal results →
  (schema_arg = SchemaGiven s ∨ (schema_arg = SchemaUndefined ∧ s = schema this)) →
  let valid := omap (fun doc => parsed_data (safeParse s doc)) results in
  let report := stringify_invalid (invalid_report results (safeParse s <$> results)) in
  (Forall (fun doc => is_success (safeParse s doc) = true) results →
   aggregate this driver h pipeline options schema_arg =
   Normal {| a_data := valid; a_status := ok; a_error := VUndefined;
             a_pipeline := None |}) ∧
  (¬ Forall (fun doc => is_success (safeParse s doc) = true) results →
   (∀ text, report = Normal text →
      aggregate this driver h pipeline options schema_arg =
      Normal {| a_data := valid; a_status := hasErrors;
                a_error := VString (pretty (length results - length valid) +:+ " "
                                    +:+ collectionName (collection this)
                                    +:+ " document(s) failed validation during aggregate");
                a_pipeline := Some pipeline |}) ∧
   (∀ message, report = Throw (Error message) →
      aggregate this driver h pipeline options schema_arg =
      Normal {| a_data := []; a_status := hasErrors; a_error := VString message;
                a_pipeline := Some pipeline |})).
Proof.
  intros Hdrv Hschema valid report. subst valid report.
  unfold aggregate, aggregate_try. rewrite Hdrv. simpl.
  assert (Heff : match schema_arg with
                 | SchemaFalse => None
                 | SchemaGiven s' => Some s'
                 | SchemaUndefined => Some (schema this)
                 end = Some s).
  { by destruct Hschema as [-> | [-> ->]]. }
  rewrite Heff. clear Heff Hschema.
  pose proof (results_split (safeParse s <$> results)) as Hsplit.
  pose proof (all_valid_iff (safeParse s <$> results)) as Hall.
  rewrite Forall_fmap in Hall. rewrite length_fmap in Hsplit, Hall.
  rewrite <- validResults_fmap.
  destruct (Nat.ltb_spec 0 (length (invalidResults (safeParse s <$> results))))
    as [Hlt|Hge].
  - split; [intros Hv; apply Hall in Hv; lia|]. intros _. split.
    + intros text ->. simpl. rewrite numbered_message_nonempty.
      by replace (length results - length (validResults (safeParse s <$> results)))
        with (length (invalidResults (safeParse s <$> results))) by lia.
    + by intros message ->.
  - split; [done|]. intros Hn. exfalso. apply Hn, Hall. lia.
Qed.

Lemma aggregate_validates_each_result_witness :
  aggregate (Zod0 := Fixtures.zod_named) (Runtime0 := Fixtures.runtime_plain)
    Tests.repo_empty Fixtures.cursors_two (heap_of []) ["$match"] None SchemaUndefined =
    Normal {| a_data := [Fixtures.john]; a_status := hasErrors;
              a_error := VString "1 test document(s) failed validation during aggregate";
              a_pipeline := Some ["$match"] |} ∧
  aggregate (Zod0 := Fixtures.zod_named) (Runtime0 := Fixtures.runtime_bigint)
    Tests.repo_empty Fixtures.cursors_two (heap_of []) ["$match"] None SchemaUndefined =
    Normal {| a_data := []; a_status := hasErrors;
              a_error := VString "Do not know how to serialize a BigInt";
              a_pipeline := Some ["$match"] |}.
Proof.
  assert (Hsome : ¬ Forall (fun doc => is_success
                              (safeParse (Zod := Fixtures.zod_named) tt doc) = true)
                      [Fixtures.nameless; Fixtures.john]).
  { intros Hall. apply Forall_cons in Hall as [Hfirst _]. discriminate. }
  split.
  - destruct (aggregate_validates_each_result (Zod0 := Fixtures.zod_named)
                (Runtime0 := Fixtures.runtime_plain) Tests.repo_empty
                Fixtures.cursors_two (heap_of []) ["$match"] None SchemaUndefined tt
                [Fixtures.nameless; Fixtures.john] eq_refl (or_intror (conj eq_refl eq_refl)))
      as [_ Hfail].
    destruct (Hfail Hsome) as [Htext _]. exact (Htext "[]" eq_refl).
  - destruct (aggregate_validates_each_result (Zod0 := Fixtures.zod_named)
                (Runtime0 := Fixtures.runtime_bigint) Tests.repo_empty
                Fixtures.cursors_two (heap_of []) ["$match"] None SchemaUndefined tt
                [Fixtures.nameless; Fixtures.john] eq_refl (or_intror (conj eq_refl eq_refl)))
      as [_ Hfail].
    destruct (Hfail Hsome) as [_ Hthrow].
    exact (Hthrow "Do not know how to serialize a BigInt" eq_refl).
Defined.

(** X19.  Every document [aggregate] returns comes from the driver's
    result: with [schema: false] it is one of the driver's documents as it
    is, otherwise it is the output of the schema in effect for one of
    them. *)
Theorem aggregate_data_origin
    {Filter Pipeline AggOptions UpdOptions Schema Issues : Type}
    `{!Zod Schema Issues} `{!Runtime Issues}
    (this : RepoBase Filter Schema) (driver : Cursors Filter Pipeline AggOptions UpdOptions)
    (h : heap) (pipeline : Pipeline) (options : option AggOptions)
    (schema_arg : SchemaArg Schema) (r : AggregateResponse Pipeline)
    (d : gmap string value) :
  aggregate this driver h pipeline options schema_arg = Normal r →
  d ∈ a_data r →
  ∃ results, driver_aggregate driver pipeline options = Normal results ∧
    match schema_arg with
    | SchemaFalse => d ∈ results
    | SchemaGiven s => ∃ doc, doc ∈ results ∧ safeParse s doc = ParseSuccess d
    | SchemaUndefined =>
        ∃ doc, doc ∈ results ∧ safeParse (schema this) doc = ParseSuccess d
    end.
Proof.
  unfold aggregate.
  assert (Hcatch : ∀ e, aggregate_catch h pipeline e = Normal r → d ∈ a_data r → False).
  { intros e. unfold aggregate_catch. destruct (error_message h e); simpl; [|done].
    intros [= <-]. by intros ?%elem_of_nil. }
  unfold aggregate_try.
  destruct (driver_aggregate driver pipeline options) as [results|e] eqn:Hdrv; simpl;
    [|intros Hr Hin; by destruct (Hcatch e Hr Hin)].
  assert (Hparsed : ∀ s, d ∈ validResults (safeParse s <$> results) →
                         ∃ doc, doc ∈ results ∧ safeParse s doc = ParseSuccess d).
  { intros s. rewrite validResults_fmap.
    intros (doc & Hdoc & Hp)%list_elem_of_omap. exists doc. split; [done|].
    destruct (safeParse s doc); simpl in Hp; congruence. }
  assert (Hcase : ∀ s,
    match
      (if (0 <? length (invalidResults (safeParse s <$> results)))%nat
       then
         logged ← stringify_invalid (invalid_report results (safeParse s <$> results));
         Normal {| a_data := validResults (safeParse s <$> results);
                   a_error := VString
                     (pretty (length (invalidResults (safeParse s <$> results))) +:+ " "
                      +:+ collectionName (collection this)
                      +:+ " document(s) failed validation during aggregate");
                   a_status := hasErrors;
                   a_pipeline := echo_if_error
                     (Some (pretty (length (invalidResults (safeParse s <$> results)))
                            +:+ " " +:+ collectionName (collection this)
                            +:+ " document(s) failed validation during aggregate"))
                     pipeline |}
       else Normal {| a_data := validResults (safeParse s <$> results);
                      a_error := VUndefined; a_status := ok;
                      a_pipeline := echo_if_error None pipeline |})
    with
    | Normal response => Normal response
    | Throw e => aggregate_catch h pipeline e
    end = Normal r →
    d ∈ a_data r → ∃ doc, doc ∈ results ∧ safeParse s doc = ParseSuccess d).
  { intros s. destruct (0 <? _)%nat.
    - destruct (stringify_invalid _) as [logged|e]; simpl.
      + intros [= <-]. apply Hparsed.
      + intros Hr Hin. by destruct (Hcatch e Hr Hin).
    - intros [= <-]. apply Hparsed. }
  destruct schema_arg as [| |s]; simpl.
  - intros Hr Hin. exists results. split; [done|]. by apply Hcase.
  - intros [= <-] Hin. by exists results.
  - intros Hr Hin. exists results. split; [done|]. by apply Hcase.
Qed.

Lemma aggregate_data_origin_witness :
  ∃ results, driver_aggregate Fixtures.cursors_two ["$match"] None = Normal results ∧
             Fixtures.nameless ∈ results.
Proof.
  apply (aggregate_data_origin (Zod0 := Fixtures.zod_named)
           (Runtime0 := Fixtures.runtime_plain) Tests.repo_empty
           Fixtures.cursors_two (heap_of []) ["$match"] None SchemaFalse
           {| a_data := [Fixtures.nameless; Fixtures.john]; a_status := ok;
              a_error := VUndefined; a_pipeline := None |} Fixtures.nameless).
  - reflexivity.
  - apply list_elem_of_here.
Defined.

Example aggregate_rejects_on_null :
  aggregate (Zod0 := Fixtures.zod_named) (Runtime0 := Fixtures.runtime_plain)
    Tests.repo_empty Fixtures.cursors_aborted (heap_of []) ["$match"] None SchemaFalse
  = Throw (Error "null is not an object").
Proof. reflexivity. Qed.

(** ** [findOneAndUpdate] *)

(** X20.  A selection on a schema that is not an object schema is
    refused before anything else happens: [findOne], [find] and
    [findOneAndUpdate] reject with the same error whatever the driver, the
    filter and the update. *)
Theorem selection_needs_object_schema
    {Filter Pipeline AggOptions UpdOptions Schema Issues : Type}
    `{!Zod Schema Issues} `{!ZodPartial Schema Issues} `{!Runtime Issues}
    (this : RepoBase Filter Schema) (driver : Cursors Filter Pipeline AggOptions UpdOptions)
    (h : heap) (now : value) (filter : Filter) (max : option Z) (update : addr)
    (options : UpdOptions) (field : string) (fields : list string) :
  isZodObject (schema this) = false →
  findOne this filter (Some (field :: fields)) =
    Throw (Error "Only object Zod schemas are supported for select") ∧
  find this driver filter max (Some (field :: fields)) =
    Throw (Error "Only object Zod schemas are supported for select") ∧
  findOneAndUpdate this driver h now filter update (Some (field :: fields)) options =
    Throw (Error "Only object Zod schemas are supported for select").
Proof.
  intros Hobj.
  unfold findOne, find, findOneAndUpdate, generateProjectionAndSchema,
    generateDynamicSchema.
  rewrite Hobj. done.
Qed.

Lemma selection_needs_object_schema_witness :
  find (Zod0 := Fixtures.zod_scalar) (Runtime0 := Fixtures.runtime_plain)
    Tests.repo_empty Fixtures.cursors_two "all" None (Some ["name"]) =
  Throw (Error "Only object Zod schemas are supported for select").
Proof.
  apply (selection_needs_object_schema (Zod0 := Fixtures.zod_scalar)
           (ZodPartial0 := Fixtures.partial_same) (Runtime0 := Fixtures.runtime_plain)
           Tests.repo_empty Fixtures.cursors_two
           (heap_of []) VNull "all" None 1%positive tt "name" []). reflexivity.
Defined.

(** X21.  A dotted name in the update makes [findOneAndUpdate] reject
    with the dot-notation error of [extractUpdatePayload]: the exception is
    not turned into a response, and neither the schema nor the driver is
    consulted. *)
Theorem findOneAndUpdate_dotted_update_rejects
    {Filter Pipeline AggOptions UpdOptions Schema Issues : Type}
    `{!Zod Schema Issues} `{!ZodPartial Schema Issues} `{!Runtime Issues}
    (this : RepoBase Filter Schema) (driver : Cursors Filter Pipeline AggOptions UpdOptions)
    (h : heap) (now : value) (filter : Filter) (update : addr)
    (select : option (list string)) (options : UpdOptions)
    (ps : option (gmap string Z) * Schema) (g : string) :
  generateProjectionAndSchema this select = Normal ps →
  first_dotted h (props (h update)) = Some g →
  findOneAndUpdate this driver h now filter update select options =
  Throw (Error (dot_notation_message g)).
Proof.
  intros Hps Hg. unfold findOneAndUpdate. rewrite Hps. simpl.
  unfold extractUpdatePayload, walk. simpl. rewrite walk_entries_run, Hg. done.
Qed.

Lemma findOneAndUpdate_dotted_update_rejects_witness :
  findOneAndUpdate (Zod0 := Tests.zod_accept) (ZodPartial0 := Fixtures.partial_same)
    (Runtime0 := Fixtures.runtime_plain)
    Tests.repo_empty Fixtures.cursors_two Fixtures.h_upd Tests.now "id-7" 4%positive None tt =
  Throw (Error (dot_notation_message "user.name")).
Proof.
  apply (findOneAndUpdate_dotted_update_rejects (Zod0 := Tests.zod_accept)
           (ZodPartial0 := Fixtures.partial_same) (Runtime0 := Fixtures.runtime_plain)
           Tests.repo_empty Fixtures.cursors_two
           Fixtures.h_upd Tests.now "id-7" 4%positive None tt (None, tt) "user.name");
    reflexivity.
Defined.

(** X22.  When the extracted payload fails the partial schema,
    [findOneAndUpdate] does not reach the driver: whatever the driver, the
    outcome is decided by the two [JSON.stringify] calls made for the log,
    on the update object and then on the issues.  When both return, the
    response has no data, status ["hasErrors"], the "before
    findOneAndUpdate" error and the filter of the call; when one throws,
    [findOneAndUpdate] rejects with its exception. *)
Theorem findOneAndUpdate_prevalidation_gates_driver
    {Filter Pipeline AggOptions UpdOptions Schema Issues : Type}
    `{!Zod Schema Issues} `{!ZodPartial Schema Issues} `{!Runtime Issues}
    (this : RepoBase Filter Schema) (h : heap) (now : value) (filter : Filter)
    (update : addr) (select : option (list string)) (options : UpdOptions)
    (ps : option (gmap string Z) * Schema) (p : payload) (issues : Issues) :
  generateProjectionAndSchema this select = Normal ps →
  extractUpdatePayload h update = Normal p →
  parse_payload (partialSchema this ps.2) h p = ParseFailure issues →
  ∀ driver : Cursors Filter Pipeline AggOptions UpdOptions,
    findOneAndUpdate this driver h now filter update select options =
    match stringify_object h update with
    | Throw e => Throw e
    | Normal _ =>
        match stringify_issues_indented issues with
        | Throw e => Throw e
        | Normal _ =>
            Normal {| q_data := [];
                      q_error := Some ("1 " +:+ collectionName (collection this)
                                       +:+ " document failed validation before findOneAndUpdate");
                      q_status := hasErrors;
                      q_queryFilter := Some filter |}
        end
    end.
Proof.
  intros Hps Hp Hparse driver. unfold findOneAndUpdate.
  rewrite Hps. simpl. rewrite Hp. simpl. rewrite Hparse.
  destruct (stringify_object h update); simpl; [|done].
  by destruct (stringify_issues_indented issues).
Qed.

Lemma findOneAndUpdate_prevalidation_gates_driver_witness :
  findOneAndUpdate (Zod0 := Fixtures.zod_named) (ZodPartial0 := Fixtures.partial_same)
    (Runtime0 := Fixtures.runtime_plain)
    Tests.repo_empty Fixtures.cursors_down Fixtures.h_parts Tests.now "id-7" 4%positive None tt =
    Normal {| q_data := [];
              q_error := Some "1 test document failed validation before findOneAndUpdate";
              q_status := hasErrors;
              q_queryFilter := Some "id-7" |} ∧
  findOneAndUpdate (Zod0 := Fixtures.zod_named) (ZodPartial0 := Fixtures.partial_same)
    (Runtime0 := Fixtures.runtime_bigint)
    Tests.repo_empty Fixtures.cursors_down Fixtures.h_parts Tests.now "id-7" 4%positive None tt =
    Throw Fixtures.serialize_error.
Proof.
  split.
  - apply (findOneAndUpdate_prevalidation_gates_driver (Zod0 := Fixtures.zod_named)
             (ZodPartial0 := Fixtures.partial_same) (Runtime0 := Fixtures.runtime_plain)
             Tests.repo_empty Fixtures.h_parts
             Tests.now "id-7" 4%positive None tt (None, tt)
             {| own := {[ "count" := VNumber 3 ]}; proto := ObjectPrototype |} tt);
      reflexivity.
  - apply (findOneAndUpdate_prevalidation_gates_driver (Zod0 := Fixtures.zod_named)
             (ZodPartial0 := Fixtures.partial_same) (Runtime0 := Fixtures.runtime_bigint)
             Tests.repo_empty Fixtures.h_parts
             Tests.now "id-7" 4%positive None tt (None, tt)
             {| own := {[ "count" := VNumber 3 ]}; proto := ObjectPrototype |} tt);
      reflexivity.
Defined.

(** X23.  The envelope of [findOneAndUpdate] is consistent: [data] holds
    at most one document; [status] is ["ok"] exactly when [data] holds one,
    exactly when [error] is undefined and exactly when no filter is echoed;
    with ["hasErrors"] the filter of the call is echoed. *)
Theorem findOneAndUpdate_envelope
    {Filter Pipeline AggOptions UpdOptions Schema Issues : Type}
    `{!Zod Schema Issues} `{!ZodPartial Schema Issues} `{!Runtime Issues}
    (this : RepoBase Filter Schema) (driver : Cursors Filter Pipeline AggOptions UpdOptions)
    (h : heap) (now : value) (filter : Filter) (update : addr)
    (select : option (list string)) (options : UpdOptions) (r : QueryResponse Filter) :
  findOneAndUpdate this driver h now filter update select options = Normal r →
  (q_status r = ok ↔ ∃ d, q_data r = [d]) ∧
  (q_status r = hasErrors ↔ q_data r = []) ∧
  (q_status r = ok ↔ q_error r = None) ∧
  (q_status r = ok ↔ q_queryFilter r = None) ∧
  (q_status r = hasErrors ↔ q_queryFilter r = Some filter).
Proof.
  unfold findOneAndUpdate.
  destruct (generateProjectionAndSchema this select) as [ps|]; [|done]. simpl.
  destruct (extractUpdatePayload h update) as [p|]; [|done]. simpl.
  assert (Hfailed : ∀ msg r',
    Normal (failed ("1 " +:+ msg) filter) = Normal r' →
    (q_status r' = ok ↔ ∃ d, q_data r' = [d]) ∧
    (q_status r' = hasErrors ↔ q_data r' = []) ∧
    (q_status r' = ok ↔ q_error r' = None) ∧
    (q_status r' = ok ↔ q_queryFilter r' = None) ∧
    (q_status r' = hasErrors ↔ q_queryFilter r' = Some filter)).
  { intros msg r' [= <-]. simpl. repeat split; try done. by intros [? ?]. }
  destruct (parse_payload (partialSchema this ps.2) h p) as [|issues].
  - destruct (driver_findOneAndUpdate _ _ _ _ _) as [[result|]|]; try apply Hfailed.
    destruct (safeParse ps.2 result) as [d|issues].
    + intros [= <-]. simpl. repeat split; try done. by eexists.
    + destruct (stringify_document result); simpl; [|done].
      destruct (stringify_issues_indented issues); simpl; [apply Hfailed | done].
  - destruct (stringify_object h update); simpl; [|done].
    destruct (stringify_issues_indented issues); simpl; [apply Hfailed | done].
Qed.

Lemma findOneAndUpdate_envelope_witness :
  findOneAndUpdate (Zod0 := Tests.zod_accept) (ZodPartial0 := Fixtures.partial_same)
    (Runtime0 := Fixtures.runtime_plain)
    Tests.repo_empty Fixtures.cursors_down Fixtures.h_upd Tests.now "id-7" 1%positive None tt =
  Normal {| q_data := [];
            q_error := Some "1 test document failed findOneAndUpdate in mongodb";
            q_status := hasErrors;
            q_queryFilter := Some "id-7" |} ∧
  Some "id-7" = Some "id-7".
Proof.
  split; [reflexivity|].
  destruct (findOneAndUpdate_envelope (Zod0 := Tests.zod_accept)
              (ZodPartial0 := Fixtures.partial_same) (Runtime0 := Fixtures.runtime_plain)
              Tests.repo_empty Fixtures.cursors_down
              Fixtures.h_upd Tests.now "id-7" 1%positive None tt
              {| q_data := [];
                 q_error := Some "1 test document failed findOneAndUpdate in mongodb";
                 q_status := hasErrors;
                 q_queryFilter := Some "id-7" |}) as (_ & _ & _ & _ & Hecho);
    [reflexivity|].
  apply Hecho. reflexivity.
Defined.

Lemma set_prop_other {A : Type} (k k' : string) (x y : A) (es : list (string * A)) :
  k' ≠ k → ((k', y) ∈ set_prop k x es ↔ (k', y) ∈ es).
Proof.
  intros Hne. induction es as [|[k0 y0] es IH]; simpl.
  - rewrite list_elem_of_singleton, elem_of_nil. split; [|done]. by intros [= ? ?].
  - destruct (String.eqb_spec k0 k) as [->|Hk0].
    + rewrite !elem_of_cons. split; (intros [[= ? ?]|?]; [done | by right]).
    + rewrite !elem_of_cons, IH. done.
Qed.

Lemma set_prop_same {A : Type} (k : string) (x : A) (es : list (string * A)) :
  NoDup es.*1 → ∀ y, (k, y) ∈ set_prop k x es ↔ y = x.
Proof.
  intros Hnd y. induction es as [|[k0 y0] es IH]; simpl.
  - rewrite list_elem_of_singleton. split; [by intros [= ->] | by intros ->].
  - apply NoDup_cons in Hnd as [Hk0 Hnd]. simpl in Hk0.
    destruct (String.eqb_spec k0 k) as [->|Hne].
    + rewrite elem_of_cons. split; [|intros ->; by left].
      intros [[= ->]|Hin]; [done|]. exfalso. apply Hk0.
      apply list_elem_of_fmap. by exists (k, y).
    + rewrite elem_of_cons, (IH Hnd). split; [|by right].
      intros [[= ? ?]|?]; done.
Qed.

Lemma as_refs_elem (k : string) (x : literal) (es : list (string * value)) :
  (k, x) ∈ as_refs es ↔ ∃ v, x = Ref v ∧ (k, v) ∈ es.
Proof.
  unfold as_refs. rewrite list_elem_of_fmap. split.
  - intros ([k' v] & [= -> ->] & Hin). by exists v.
  - intros (v & -> & Hin). by exists (k, v).
Qed.

Lemma as_refs_keys (es : list (string * value)) : (as_refs es).*1 = es.*1.
Proof. unfold as_refs. by rewrite <- list_fmap_compose. Qed.

(** X24.  The update [findOneAndUpdate] builds for the driver carries,
    under [$set], an object whose [updated_at] is the new Date and nothing
    else for that key, with every other entry of the caller's [$set] as it
    was; the entries of the update object under other keys are passed on as
    they are. *)
Theorem update_sent_sets_updated_at (h : heap) (update : addr) (now : value) :
  NoDup (props (h update)).*1 →
  NoDup (spread_entries h (get_prop "$set" (props (h update)))).*1 →
  ∃ entries,
    (∀ x, ("$set", x) ∈ update_sent h update now ↔ x = Lit entries) ∧
    (∀ v, ("updated_at", v) ∈ entries ↔ v = now) ∧
    (∀ k v, k ≠ "updated_at" →
       ((k, v) ∈ entries ↔
        (k, v) ∈ spread_entries h (get_prop "$set" (props (h update))))) ∧
    (∀ k x, k ≠ "$set" →
       ((k, x) ∈ update_sent h update now ↔
        ∃ v, x = Ref v ∧ (k, v) ∈ props (h update))).
Proof.
  intros Hnd Hset.
  exists (set_prop "updated_at" now
            (spread_entries h (get_prop "$set" (props (h update))))).
  unfold update_sent. split; [|split; [|split]].
  - apply set_prop_same. by rewrite as_refs_keys.
  - by apply set_prop_same.
  - intros k v Hk. by apply set_prop_other.
  - intros k x Hk. rewrite set_prop_other by done. apply as_refs_elem.
Qed.

Lemma update_sent_sets_updated_at_witness :
  ∃ entries,
    ("$set", Lit entries) ∈ update_sent Fixtures.h_upd 1%positive Tests.now ∧
    ("updated_at", Tests.now) ∈ entries ∧
    (("updated_at", VNumber 0) ∉ entries) ∧
    ("name", VString "John") ∈ entries ∧
    ("$inc", Ref (VObject 3)) ∈ update_sent Fixtures.h_upd 1%positive Tests.now.
Proof.
  destruct (update_sent_sets_updated_at Fixtures.h_upd 1%positive Tests.now)
    as (entries & Hslot & Hnow & Hrest & Hother).
  - apply (bool_decide_unpack _). reflexivity.
  - apply (bool_decide_unpack _). reflexivity.
  - exists entries. split; [by apply Hslot|]. split; [by apply Hnow|].
    split; [intros Hin%Hnow; discriminate|]. split.
    + apply Hrest; [discriminate|]. apply list_elem_of_here.
    + apply Hother; [discriminate|]. exists (VObject 3). split; [done|].
      apply list_elem_of_further, list_elem_of_here.
Defined.

(** X25.  [findOneAndUpdate] returns a document only along one path: the
    extracted payload passed the partial schema, the driver was given the
    update with the new [updated_at] and returned a document, and [data]
    holds what the schema of the selection parsed out of it. *)
Theorem findOneAndUpdate_data_validated
    {Filter Pipeline AggOptions UpdOptions Schema Issues : Type}
    `{!Zod Schema Issues} `{!ZodPartial Schema Issues} `{!Runtime Issues}
    (this : RepoBase Filter Schema) (driver : Cursors Filter Pipeline AggOptions UpdOptions)
    (h : heap) (now : value) (filter : Filter) (update : addr)
    (select : option (list string)) (options : UpdOptions) (r : QueryResponse Filter)
    (d : gmap string value) :
  findOneAndUpdate this driver h now filter update select options = Normal r →
  d ∈ q_data r →
  ∃ ps p result,
    generateProjectionAndSchema this select = Normal ps ∧
    extractUpdatePayload h update = Normal p ∧
    is_success (parse_payload (partialSchema this ps.2) h p) = true ∧
    driver_findOneAndUpdate driver filter (update_sent h update now) ps.1 options
      = Normal (Some result) ∧
    safeParse ps.2 result = ParseSuccess d ∧
    q_data r = [d].
Proof.
  unfold findOneAndUpdate.
  destruct (generateProjectionAndSchema this select) as [ps|]; [|done]. simpl.
  destruct (extractUpdatePayload h update) as [p|]; [|done]. simpl.
  destruct (parse_payload (partialSchema this ps.2) h p) as [|issues] eqn:Hprior.
  - destruct (driver_findOneAndUpdate _ _ _ _ _) as [[result|]|] eqn:Hdrv;
      try (intros [= <-]; by intros ?%elem_of_nil).
    destruct (safeParse ps.2 result) as [d'|issues] eqn:Hpost.
    + intros [= <-]. simpl. intros ->%list_elem_of_singleton.
      exists ps, p, result. by rewrite Hprior.
    + destruct (stringify_document result); simpl; [|done].
      destruct (stringify_issues_indented issues); simpl; [|done].
      intros [= <-]. by intros ?%elem_of_nil.
  - destruct (stringify_object h update); simpl; [|done].
    destruct (stringify_issues_indented issues); simpl; [|done].
    intros [= <-]. by intros ?%elem_of_nil.
Qed.

Lemma findOneAndUpdate_data_validated_witness :
  findOneAndUpdate (Zod0 := Tests.zod_accept) (ZodPartial0 := Fixtures.partial_same)
    (Runtime0 := Fixtures.runtime_plain)
    Tests.repo_empty Fixtures.cursors_found Fixtures.h_upd Tests.now "id-7" 1%positive
    None tt =
  Normal {| q_data := [Fixtures.john]; q_error := None; q_status := ok;
            q_queryFilter := None |} ∧
  ∃ ps p result,
    generateProjectionAndSchema (Zod0 := Tests.zod_accept) Tests.repo_empty None = Normal ps ∧
    extractUpdatePayload Fixtures.h_upd 1 = Normal p ∧
    is_success (parse_payload (Zod0 := Tests.zod_accept)
                  (ZodPartial0 := Fixtures.partial_same)
                  (partialSchema (Zod0 := Tests.zod_accept)
                     (ZodPartial0 := Fixtures.partial_same) Tests.repo_empty ps.2)
                  Fixtures.h_upd p) = true ∧
    driver_findOneAndUpdate Fixtures.cursors_found "id-7"
      (update_sent Fixtures.h_upd 1%positive Tests.now) ps.1 tt = Normal (Some result) ∧
    safeParse (Zod := Tests.zod_accept) ps.2 result = ParseSuccess Fixtures.john ∧
    [Fixtures.john] = [Fixtures.john].
Proof.
  split; [reflexivity|].
  apply (findOneAndUpdate_data_validated (Zod0 := Tests.zod_accept)
           (ZodPartial0 := Fixtures.partial_same) (Runtime0 := Fixtures.runtime_plain)
           Tests.repo_empty Fixtures.cursors_found
           Fixtures.h_upd Tests.now "id-7" 1%positive None tt
           {| q_data := [Fixtures.john]; q_error := None; q_status := ok;
              q_queryFilter := None |} Fixtures.john); [reflexivity|].
  apply list_elem_of_here.
Defined.
